(** * State-sync reactor (statesync/reactor.go): a shallow embedding

    The reactor serves snapshots and chunks to peers and feeds the snapshots
    and chunks it receives into the active syncer session.  The file models

    - the data the reactor handles (messages, envelopes, snapshots, chunks);
    - the read/write mutex guarding [r.syncer], with the calls that wait
      and what a waiting call leaves behind;
    - the channel-based dispatch loop [Start], one iteration per input, with
      the stack of deferred calls of the enclosing function;
    - the legacy callbacks [Receive], [AddPeer], [RemovePeer];
    - [recentSnapshots] and [Sync].

    Everything the reactor does to the outside (log lines, channel sends,
    switch calls) is recorded, in order, in a trace of events. *)

From Stdlib Require Import List String NArith ZArith Bool Arith Lia Sorted Permutation.
Import ListNotations.
Local Open Scope string_scope.
Local Open Scope nat_scope.

(** ** Go values *)

(** A [[]byte]: [None] is the nil slice, [Some []] an empty non-nil one. *)
Definition bytes := option (list Byte.byte).

Definition is_nil (b : bytes) : bool :=
  match b with None => true | Some _ => false end.

Definition error := string.

(** A Go [(T, error)] pair of results. *)
Inductive fallible (A : Type) : Type :=
| OK (a : A)
| Err (e : error).
Arguments OK {A} a.
Arguments Err {A} e.

(** ** Constants *)

Definition SnapshotChannel : N := 0x60.
Definition ChunkChannel : N := 0x61.
(** The number of recent snapshots to send and receive per peer. *)
Definition recentSnapshots : nat := 10.

(** ** The mutex (sync.RWMutex)

    The state of the mutex is the number of active readers and a flag that
    is set from the moment a writer has announced itself in [Lock]: with no
    active reader the writer holds the lock, with some it waits for them to
    leave, and in both cases every later [RLock] waits.  Unlocking a mutex
    that is not locked is a fatal runtime error. *)

Record RWMutex := { readers : nat; writer : bool }.

Definition unlocked : RWMutex := {| readers := 0; writer := false |}.

(** What a call can come to: it returns; it waits on the mutex, which it
    leaves as [behind] while it waits; or the runtime aborts.  An iteration
    of the loop, a legacy callback and a critical section of Sync wait only
    in their first statement, so the mutex is all that such a waiting call
    has changed. *)
Inductive result (A : Type) : Type :=
| Ret (a : A)
| Blocks (behind : RWMutex)
| Fatal (msg : string).
Arguments Ret {A} a.
Arguments Blocks {A} behind.
Arguments Fatal {A} msg.

Definition bind {A B} (m : result A) (k : A -> result B) : result B :=
  match m with
  | Ret a => k a
  | Blocks behind => Blocks behind
  | Fatal msg => Fatal msg
  end.

Notation "x <- m ;; k" := (bind m (fun x => k))
  (at level 61, m at next level, right associativity).

(** A reader waits behind a writer that holds the lock or waits for it;
    while it waits it is not among the active readers. *)
Definition RLock (m : RWMutex) : result RWMutex :=
  if writer m then Blocks m
  else Ret {| readers := S (readers m); writer := false |}.

Definition RUnlock (m : RWMutex) : result RWMutex :=
  match readers m with
  | O => Fatal "sync: RUnlock of unlocked RWMutex"
  | S n => Ret {| readers := n; writer := writer m |}
  end.

(** A writer queues behind another writer; otherwise it announces itself,
    and takes the lock at once if no reader is active, or waits for the
    active readers with the announcement standing. *)
Definition Lock (m : RWMutex) : result RWMutex :=
  if writer m then Blocks m
  else match readers m with
       | O => Ret {| readers := 0; writer := true |}
       | S _ => Blocks {| readers := readers m; writer := true |}
       end.

Definition Unlock (m : RWMutex) : result RWMutex :=
  if writer m then Ret {| readers := readers m; writer := false |}
  else Fatal "sync: Unlock of unlocked RWMutex".

Definition held (m : RWMutex) : bool := writer m || (0 <? readers m).

(** ** Peers, messages, envelopes *)

(** [p2p.PeerID] is a byte string.  The legacy [p2p.Peer] handle is
    represented by the ID it answers to [ID()]. *)
Definition PeerID := list Byte.byte.
Definition Peer := PeerID.
Definition Peer_ID (p : Peer) : PeerID := p.

(** The dynamic type of [envelope.Message].  [OtherMessage] stands for any
    other proto.Message. *)
Inductive Message :=
| SnapshotsRequest
| SnapshotsResponse (Height Format Chunks : N) (Hash Metadata : bytes)
| ChunkRequest (Height Format Index : N)
| ChunkResponse (Height Format Index : N) (Chunk : bytes) (Missing : bool)
| OtherMessage (type_name : string).

Record Envelope := {
  From : PeerID;
  To : PeerID;
  Broadcast : bool;
  Msg : Message
}.

(** ** Snapshots and chunks *)

Record abci_Snapshot := {
  abci_Height : N;
  abci_Format : N;
  abci_Chunks : N;
  abci_Hash : bytes;
  abci_Metadata : bytes
}.

Record snapshot := {
  Height : N;
  Format : N;
  Chunks : N;
  Hash : bytes;
  Metadata : bytes
}.

Record chunk := {
  chunk_Height : N;
  chunk_Format : N;
  chunk_Index : N;
  chunk_Chunk : bytes;
  chunk_Sender : PeerID
}.

Record RequestLoadSnapshotChunk := {
  req_Height : N;
  req_Format : N;
  req_Chunk : N
}.

Record ResponseLoadSnapshotChunk := { resp_Chunk : bytes }.

(** The application connection [proxy.AppConnSnapshot], as far as the
    reactor calls it. *)
Record AppConnSnapshot := {
  ListSnapshotsSync : fallible (list abci_Snapshot);
  LoadSnapshotChunkSync : RequestLoadSnapshotChunk -> fallible ResponseLoadSnapshotChunk
}.

(** ** Events *)

Inductive Level := Debug | Error.

Inductive Event :=
| Log (lvl : Level) (msg : string)
| SnapshotChOut (e : Envelope)            (* r.snapshotCh.Out <- e *)
| ChunkChOut (e : Envelope)               (* r.chunkCh.Out <- e *)
| PeerSend (src : Peer) (chID : N) (msg : Message)   (* src.Send(chID, mustEncodeMsg(msg)) *)
| StopPeerForError (src : Peer) (err : error)        (* r.Switch.StopPeerForError *)
| SwitchBroadcast (chID : N) (msg : Message)         (* r.Switch.Broadcast *)
| SyncAnyCall (discoveryTime : Z).                   (* r.syncer.SyncAny starts *)

(** A network send: a channel send, a send to a peer, or a broadcast. *)
Definition is_send (e : Event) : bool :=
  match e with
  | SnapshotChOut _ | ChunkChOut _ | PeerSend _ _ _ | SwitchBroadcast _ _ => true
  | _ => false
  end.

(** A report of a peer through the error mechanism. *)
Definition is_peer_error (p : PeerID) (e : Event) : bool :=
  match e with
  | StopPeerForError q _ => if list_eq_dec Byte.byte_eq_dec p q then true else false
  | _ => false
  end.

Definition is_log (e : Event) : bool :=
  match e with Log _ _ => true | _ => false end.

Definition is_broadcast (e : Event) : bool :=
  match e with SwitchBroadcast _ _ => true | _ => false end.

(** ** sort.Slice

    The standard library sorts in place and promises no stability: for a
    comparison that is a strict weak order the outcome is some rearrangement
    of the slice in which no element is [less] than the one before it. *)

Definition strict_weak {A} (less : A -> A -> bool) : Prop :=
  (forall a b, less a b = true -> less b a = false) /\
  (forall a b c, less a b = false -> less b c = false -> less a c = false).

Class SliceSorter := {
  sort_Slice : forall {A : Type}, (A -> A -> bool) -> list A -> list A;
  sort_Slice_perm : forall A (less : A -> A -> bool) l,
      Permutation (sort_Slice less l) l;
  sort_Slice_sorted : forall A (less : A -> A -> bool) l,
      strict_weak less ->
      Sorted (fun a b => less b a = false) (sort_Slice less l)
}.

(** An insertion sort, as one sorter that keeps the promise. *)
Fixpoint insert_by {A} (less : A -> A -> bool) (x : A) (l : list A) : list A :=
  match l with
  | [] => [x]
  | y :: l' => if less x y then x :: y :: l' else y :: insert_by less x l'
  end.

Definition insertion_sort {A} (less : A -> A -> bool) (l : list A) : list A :=
  fold_left (fun acc x => insert_by less x acc) l [].

(** ** Collaborators outside this file

    The session type and its operations (statesync/syncer.go), the message
    codec (statesync/messages.go) and the state types are taken as they are
    used here.  A call on the session yields the session after the call and
    what the call returns. *)

Class Collaborators := {
  Syncer : Type;
  State : Type;
  Commit : Type;
  StateProvider : Type;
  AppConnQuery : Type;
  State_zero : State;
  newSyncer : AppConnSnapshot -> AppConnQuery -> StateProvider -> string -> Syncer;
  AddSnapshot : Syncer -> Peer -> snapshot -> Syncer * (bool * option error);
  AddChunk : Syncer -> chunk -> Syncer * (bool * option error);
  syncer_AddPeer : Syncer -> Peer -> Syncer;
  syncer_RemovePeer : Syncer -> Peer -> Syncer;
  SyncAny : Syncer -> Z -> Syncer * (State * option Commit * option error);
  decodeMsg : list Byte.byte -> fallible Message;
  validateMsg : Message -> option error
}.

(** ** The reactor *)

Record Reactor `{Collaborators} := {
  IsRunning : bool;
  conn : AppConnSnapshot;
  connQuery : AppConnQuery;
  tempDir : string;
  mtx : RWMutex;
  syncer : option Syncer
}.

Section Reactor.
Context `{Collaborators} `{SliceSorter}.

Definition set_mtx (r : Reactor) (m : RWMutex) : Reactor :=
  {| IsRunning := IsRunning r; conn := conn r; connQuery := connQuery r;
     tempDir := tempDir r; mtx := m; syncer := syncer r |}.

Definition set_syncer (r : Reactor) (s : option Syncer) : Reactor :=
  {| IsRunning := IsRunning r; conn := conn r; connQuery := connQuery r;
     tempDir := tempDir r; mtx := mtx r; syncer := s |}.

(** *** recentSnapshots *)

(** The comparison handed to sort.Slice. *)
Definition snapshot_less (a b : abci_Snapshot) : bool :=
  if (abci_Height b <? abci_Height a)%N then true
  else if ((abci_Height a =? abci_Height b)%N && (abci_Format b <? abci_Format a)%N)%bool then true
  else false.

Definition to_snapshot (s : abci_Snapshot) : snapshot :=
  {| Height := abci_Height s; Format := abci_Format s; Chunks := abci_Chunks s;
     Hash := abci_Hash s; Metadata := abci_Metadata s |}.

(** The copying loop: [i] is the index of the head of [l], [snapshots] what
    has been appended so far. *)
Fixpoint collect (i : nat) (l : list abci_Snapshot) (snapshots : list snapshot)
  : list snapshot :=
  match l with
  | [] => snapshots
  | s :: l' =>
      if recentSnapshots <=? i then snapshots
      else collect (S i) l' (snapshots ++ [to_snapshot s])
  end.

(** [n] is only the capacity the result slice is allocated with. *)
Definition Reactor_recentSnapshots (r : Reactor) (n : N) : fallible (list snapshot) :=
  match ListSnapshotsSync (conn r) with
  | Err err => Err err
  | OK resp_Snapshots =>
      let sorted := sort_Slice snapshot_less resp_Snapshots in
      OK (collect 0 sorted [])
  end.

(** *** Start: the dispatch loop *)

Inductive Deferred := defer_RUnlock.

(** The running call of [Start]: the reactor, the deferred calls of the
    function (last registered first) and what it has done so far. *)
Record Frame := {
  self : Reactor;
  deferred : list Deferred;
  trace : list Event
}.

Definition emit (fr : Frame) (evs : list Event) : Frame :=
  {| self := self fr; deferred := deferred fr; trace := trace fr ++ evs |}.

Definition with_self (fr : Frame) (r : Reactor) : Frame :=
  {| self := r; deferred := deferred fr; trace := trace fr |}.

Definition defer (fr : Frame) (d : Deferred) : Frame :=
  {| self := self fr; deferred := d :: deferred fr; trace := trace fr |}.

(** [r.mtx.RLock(); defer r.mtx.RUnlock()] in the body of [Start]. *)
Definition RLock_defer (fr : Frame) : result Frame :=
  m <- RLock (mtx (self fr)) ;;
  Ret (defer (with_self fr (set_mtx (self fr) m)) defer_RUnlock).

Definition advertise (to : PeerID) (s : snapshot) : list Event :=
  [ Log Debug "advertising snapshot";
    SnapshotChOut {| From := []; To := to; Broadcast := false;
                     Msg := SnapshotsResponse (Height s) (Format s) (Chunks s)
                                              (Hash s) (Metadata s) |} ].

(** case envelope := <-r.snapshotCh.In *)
Definition Start_snapshotCh (fr : Frame) (envelope : Envelope) : result Frame :=
  match Msg envelope with
  | SnapshotsRequest =>
      match Reactor_recentSnapshots (self fr) (N.of_nat recentSnapshots) with
      | Err err => Ret (emit fr [Log Error "failed to fetch snapshots"])
      | OK snapshots => Ret (emit fr (flat_map (advertise (From envelope)) snapshots))
      end
  | SnapshotsResponse h f c hash meta =>
      fr <- RLock_defer fr ;;
      match syncer (self fr) with
      | None =>
          Ret (emit fr [Log Debug "received unexpected snapshot; no state sync in progress"])
      | Some s =>
          let fr := emit fr [Log Debug "received snapshot"] in
          let '(s', (_, err)) :=
            AddSnapshot s (From envelope)
              {| Height := h; Format := f; Chunks := c; Hash := hash; Metadata := meta |} in
          let fr := with_self fr (set_syncer (self fr) (Some s')) in
          match err with
          | Some _ => Ret (emit fr [Log Error "failed to add snapshot"])
          | None => Ret fr
          end
      end
  | _ => Ret (emit fr [Log Error "received unknown message: %T"])
  end.

(** case envelope := <-r.chunkCh.In *)
Definition Start_chunkCh (fr : Frame) (envelope : Envelope) : result Frame :=
  match Msg envelope with
  | ChunkRequest h f i =>
      let fr := emit fr [Log Debug "received chunk request"] in
      match LoadSnapshotChunkSync (conn (self fr))
              {| req_Height := h; req_Format := f; req_Chunk := i |} with
      | Err err => Ret (emit fr [Log Error "failed to load chunk"])
      | OK resp =>
          Ret (emit fr
                 [ Log Debug "sending chunk";
                   ChunkChOut {| From := []; To := From envelope; Broadcast := false;
                                 Msg := ChunkResponse h f i (resp_Chunk resp)
                                                      (is_nil (resp_Chunk resp)) |} ])
      end
  | ChunkResponse h f i c _ =>
      fr <- RLock_defer fr ;;
      match syncer (self fr) with
      | None =>
          Ret (emit fr [Log Debug "received unexpected chunk, no state sync in progress"])
      | Some s =>
          let fr := emit fr [Log Debug "received chunk; adding to sync"] in
          let '(s', (_, err)) :=
            AddChunk s {| chunk_Height := h; chunk_Format := f; chunk_Index := i;
                          chunk_Chunk := c; chunk_Sender := From envelope |} in
          let fr := with_self fr (set_syncer (self fr) (Some s')) in
          match err with
          | Some _ => Ret (emit fr [Log Error "failed to add chunk"])
          | None => Ret fr
          end
      end
  | _ => Ret (emit fr [Log Error "received unknown message: %T"])
  end.

(** [p2p.PeerUpdate], as the router publishes it. *)
Inductive PeerStatus :=
| PeerStatusNew | PeerStatusUp | PeerStatusDown | PeerStatusRemoved | PeerStatusBanned.

Record PeerUpdate := { update_ID : PeerID; update_Status : PeerStatus }.

(** What the [select] of one iteration receives. *)
Inductive Input :=
| snapshotCh_In (envelope : Envelope)
| chunkCh_In (envelope : Envelope)
| peerUpdates_In (peerUpdate : PeerUpdate)
| ctx_Done.

(** The deferred calls, run when the function returns. *)
Fixpoint run_deferred (ds : list Deferred) (r : Reactor) : result Reactor :=
  match ds with
  | [] => Ret r
  | defer_RUnlock :: ds' =>
      m <- RUnlock (mtx r) ;;
      run_deferred ds' (set_mtx r m)
  end.

(** One iteration of the loop, for an input other than cancellation. *)
Definition Start_iteration (fr : Frame) (i : Input) : result Frame :=
  match i with
  | snapshotCh_In envelope => Start_snapshotCh fr envelope
  | chunkCh_In envelope => Start_chunkCh fr envelope
  | peerUpdates_In peerUpdate => Ret (emit fr [Log Debug "peer update"])
  | ctx_Done => Ret fr
  end.

(** The loop over the inputs in the order the [select] takes them.  With the
    inputs used up the call is still waiting in [select] ([inl]); on
    cancellation it returns nil after its deferred calls ([inr]). *)
Fixpoint Start (fr : Frame) (inputs : list Input)
  : result (Frame + Reactor * list Event) :=
  match inputs with
  | [] => Ret (inl fr)
  | ctx_Done :: _ =>
      r <- run_deferred (deferred fr) (self fr) ;;
      Ret (inr (r, trace fr))
  | i :: inputs' =>
      fr' <- Start_iteration fr i ;;
      Start fr' inputs'
  end.

Definition enter (r : Reactor) : Frame :=
  {| self := r; deferred := []; trace := [] |}.

(** *** The legacy callbacks *)

(** A callback that opens with [r.mtx.RLock(); defer r.mtx.RUnlock()]: the
    deferred unlock runs when the callback returns, on every path. *)
Definition with_RLock {A} (r : Reactor) (body : Reactor -> Reactor * A)
  : result (Reactor * A) :=
  m <- RLock (mtx r) ;;
  let '(r', a) := body (set_mtx r m) in
  m' <- RUnlock (mtx r') ;;
  Ret (set_mtx r' m', a).

(** AddPeer implements p2p.Reactor. *)
Definition AddPeer (r : Reactor) (peer : Peer) : result (Reactor * unit) :=
  with_RLock r (fun r =>
    match syncer r with
    | Some s => (set_syncer r (Some (syncer_AddPeer s peer)), tt)
    | None => (r, tt)
    end).

(** RemovePeer implements p2p.Reactor. *)
Definition RemovePeer (r : Reactor) (peer : Peer) : result (Reactor * unit) :=
  with_RLock r (fun r =>
    match syncer r with
    | Some s => (set_syncer r (Some (syncer_RemovePeer s peer)), tt)
    | None => (r, tt)
    end).

Definition advertise_legacy (src : Peer) (chID : N) (s : snapshot) : list Event :=
  [ Log Debug "Advertising snapshot";
    PeerSend src chID
      (SnapshotsResponse (Height s) (Format s) (Chunks s) (Hash s) (Metadata s)) ].

(** case SnapshotChannel *)
Definition Receive_snapshot (r : Reactor) (chID : N) (src : Peer) (msg : Message)
  : result (Reactor * list Event) :=
  match msg with
  | SnapshotsRequest =>
      match Reactor_recentSnapshots r (N.of_nat recentSnapshots) with
      | Err err => Ret (r, [Log Error "Failed to fetch snapshots"])
      | OK snapshots => Ret (r, flat_map (advertise_legacy src chID) snapshots)
      end
  | SnapshotsResponse h f c hash meta =>
      with_RLock r (fun r =>
        match syncer r with
        | None => (r, [Log Debug "Received unexpected snapshot, no state sync in progress"])
        | Some s =>
            let '(s', (_, err)) :=
              AddSnapshot s src
                {| Height := h; Format := f; Chunks := c; Hash := hash; Metadata := meta |} in
            (set_syncer r (Some s'),
             Log Debug "Received snapshot" ::
             match err with
             | Some _ => [Log Error "Failed to add snapshot"]
             | None => []
             end)
        end)
  | _ => Ret (r, [Log Error "Received unknown message %T"])
  end.

(** case ChunkChannel *)
Definition Receive_chunk (r : Reactor) (src : Peer) (msg : Message)
  : result (Reactor * list Event) :=
  match msg with
  | ChunkRequest h f i =>
      match LoadSnapshotChunkSync (conn r)
              {| req_Height := h; req_Format := f; req_Chunk := i |} with
      | Err err =>
          Ret (r, [Log Debug "Received chunk request"; Log Error "Failed to load chunk"])
      | OK resp =>
          Ret (r, [ Log Debug "Received chunk request";
                    Log Debug "Sending chunk";
                    PeerSend src ChunkChannel
                      (ChunkResponse h f i (resp_Chunk resp) (is_nil (resp_Chunk resp))) ])
      end
  | ChunkResponse h f i c _ =>
      with_RLock r (fun r =>
        match syncer r with
        | None => (r, [Log Debug "Received unexpected chunk, no state sync in progress"])
        | Some s =>
            let '(s', (_, err)) :=
              AddChunk s {| chunk_Height := h; chunk_Format := f; chunk_Index := i;
                            chunk_Chunk := c; chunk_Sender := Peer_ID src |} in
            (set_syncer r (Some s'),
             Log Debug "Received chunk, adding to sync" ::
             match err with
             | Some _ => [Log Error "Failed to add chunk"]
             | None => []
             end)
        end)
  | _ => Ret (r, [Log Error "Received unknown message %T"])
  end.

(** Receive implements p2p.Reactor. *)
Definition Receive (r : Reactor) (chID : N) (src : Peer) (msgBytes : list Byte.byte)
  : result (Reactor * list Event) :=
  if negb (IsRunning r) then Ret (r, [])
  else
    match decodeMsg msgBytes with
    | Err err => Ret (r, [Log Error "Error decoding message"; StopPeerForError src err])
    | OK msg =>
        match validateMsg msg with
        | Some err => Ret (r, [Log Error "Invalid message"; StopPeerForError src err])
        | None =>
            if (chID =? SnapshotChannel)%N then Receive_snapshot r chID src msg
            else if (chID =? ChunkChannel)%N then Receive_chunk r src msg
            else Ret (r, [Log Error "Received message on invalid channel %x"])
        end
    end.

(** *** Sync *)

Definition already_in_progress : error := "a state sync is already in progress".

(** Sync runs a state sync, returning the new state and last commit at the
    snapshot height. *)
Definition Sync (r : Reactor) (stateProvider : StateProvider) (discoveryTime : Z)
  : result (Reactor * (State * option Commit * option error) * list Event) :=
  m <- Lock (mtx r) ;;
  let r := set_mtx r m in
  match syncer r with
  | Some _ =>
      m <- Unlock (mtx r) ;;
      Ret (set_mtx r m, (State_zero, None, Some already_in_progress), [])
  | None =>
      let s := newSyncer (conn r) (connQuery r) stateProvider (tempDir r) in
      let r := set_syncer r (Some s) in
      m <- Unlock (mtx r) ;;
      let r := set_mtx r m in
      let evs := [ Log Debug "Requesting snapshots from known peers";
                   SwitchBroadcast SnapshotChannel SnapshotsRequest;
                   SyncAnyCall discoveryTime ] in
      let '(s', res) := SyncAny s discoveryTime in
      let r := set_syncer r (Some s') in
      m <- Lock (mtx r) ;;
      let r := set_syncer (set_mtx r m) None in
      m <- Unlock (mtx r) ;;
      Ret (set_mtx r m, res, evs)
  end.

End Reactor.

(** ** Vocabulary of the statements *)

(** [a] comes no later than [b] in descending (Height, Format) order. *)
Definition snapshot_ge (a b : snapshot) : Prop :=
  (Height b < Height a)%N \/ (Height a = Height b /\ (Format b <= Format a)%N).

Definition descending (l : list snapshot) : Prop := StronglySorted snapshot_ge l.

(** The envelopes put on the two outbound channels, in order. *)
Definition snapshotCh_sent (evs : list Event) : list Envelope :=
  flat_map (fun e => match e with SnapshotChOut env => [env] | _ => [] end) evs.

Definition chunkCh_sent (evs : list Event) : list Envelope :=
  flat_map (fun e => match e with ChunkChOut env => [env] | _ => [] end) evs.

(** The response advertising [s] to peer [to]. *)
Definition SnapshotsResponse_to (to : PeerID) (s : abci_Snapshot) : Envelope :=
  {| From := []; To := to; Broadcast := false;
     Msg := SnapshotsResponse (abci_Height s) (abci_Format s) (abci_Chunks s)
                              (abci_Hash s) (abci_Metadata s) |}.

(** The message types the two channels know. *)
Definition snapshotCh_knows (m : Message) : bool :=
  match m with
  | SnapshotsRequest | SnapshotsResponse _ _ _ _ _ => true
  | _ => false
  end.

Definition chunkCh_knows (m : Message) : bool :=
  match m with
  | ChunkRequest _ _ _ | ChunkResponse _ _ _ _ _ => true
  | _ => false
  end.

(** The responses and snapshots a peer can send into the session. *)
Definition is_response (i : Input) : bool :=
  match i with
  | snapshotCh_In e => match Msg e with SnapshotsResponse _ _ _ _ _ => true | _ => false end
  | chunkCh_In e => match Msg e with ChunkResponse _ _ _ _ _ => true | _ => false end
  | _ => false
  end.

Definition is_ctx_Done (i : Input) : bool :=
  match i with ctx_Done => true | _ => false end.

(** An event that reports a failure: an error-level log line or a peer
    reported to the switch. *)
Definition is_failure (e : Event) : bool :=
  match e with
  | Log Error _ | StopPeerForError _ _ => true
  | _ => false
  end.

(** The peer an input comes from. *)
Definition sender (i : Input) : PeerID :=
  match i with
  | snapshotCh_In e | chunkCh_In e => From e
  | peerUpdates_In u => update_ID u
  | ctx_Done => []
  end.

(** A message of a type its channel does not know. *)
Definition unknown_on_channel (i : Input) : bool :=
  match i with
  | snapshotCh_In e => negb (snapshotCh_knows (Msg e))
  | chunkCh_In e => negb (chunkCh_knows (Msg e))
  | _ => false
  end.

(** The reading of "an unknown message gets its sender reported": the
    iteration returns, having logged and having reported the sender. *)
Definition logged_and_reported `{Collaborators} `{SliceSorter}
  (fr : Frame) (i : Input) : Prop :=
  exists fr' evs,
    Start_iteration fr i = Ret fr' /\
    trace fr' = (trace fr ++ evs)%list /\
    existsb is_log evs = true /\
    existsb (is_peer_error (sender i)) evs = true.

(** ** A concrete setting

    A session that records the calls made on it, a toy codec, and an
    application with three snapshots; used to run the model. *)

Module Demo.

Inductive Call :=
| call_AddSnapshot (peer : Peer) (s : snapshot)
| call_AddChunk (c : chunk)
| call_AddPeer (peer : Peer)
| call_RemovePeer (peer : Peer).

Definition decode (bs : list Byte.byte) : fallible Message :=
  match bs with
  | [Byte.x01] => OK SnapshotsRequest
  | [Byte.x03; h; f; i] => OK (ChunkRequest (Byte.to_N h) (Byte.to_N f) (Byte.to_N i))
  | [Byte.x04; h; f; i] =>
      OK (ChunkResponse (Byte.to_N h) (Byte.to_N f) (Byte.to_N i) None true)
  | [Byte.x05; h; f; i] =>
      OK (ChunkResponse (Byte.to_N h) (Byte.to_N f) (Byte.to_N i) None false)
  | _ => Err "unknown message type"
  end.

Definition collaborators : Collaborators :=
  {| Syncer := list Call;
     State := unit;
     Commit := unit;
     StateProvider := unit;
     AppConnQuery := unit;
     State_zero := tt;
     newSyncer := fun _ _ _ _ => [];
     AddSnapshot := fun s peer snap => ((s ++ [call_AddSnapshot peer snap])%list, (true, None));
     AddChunk := fun s c => ((s ++ [call_AddChunk c])%list, (true, None));
     syncer_AddPeer := fun s peer => (s ++ [call_AddPeer peer])%list;
     syncer_RemovePeer := fun s peer => (s ++ [call_RemovePeer peer])%list;
     SyncAny := fun s _ => (s, (tt, None, Some "no suitable snapshot found"));
     decodeMsg := decode;
     validateMsg := fun _ => None |}.

#[local] Existing Instance collaborators.

Definition snap (h f : N) : abci_Snapshot :=
  {| abci_Height := h; abci_Format := f; abci_Chunks := 3;
     abci_Hash := Some [Byte.xab]; abci_Metadata := None |}.

(** Chunks 0 and 1 of snapshot (7, 2) exist, chunk 2 is gone, anything else
    is an error of the application. *)
Definition app : AppConnSnapshot :=
  {| ListSnapshotsSync := OK [snap 5 1; snap 7 1; snap 7 2];
     LoadSnapshotChunkSync := fun req =>
       if ((req_Height req =? 7) && (req_Format req =? 2))%N then
         if (req_Chunk req <? 2)%N then OK {| resp_Chunk := Some [Byte.x2a] |}
         else if (req_Chunk req =? 2)%N then OK {| resp_Chunk := None |}
         else Err "chunk out of range"
       else Err "no such snapshot" |}.

Definition peerA : PeerID := [Byte.x41].
Definition peerB : PeerID := [Byte.x42].

(** A running reactor with no session, and one with a session. *)
Definition idle : @Reactor collaborators :=
  {| IsRunning := true; conn := app; connQuery := tt; tempDir := "/tmp";
     mtx := unlocked; syncer := None |}.

Definition syncing : @Reactor collaborators :=
  {| IsRunning := true; conn := app; connQuery := tt; tempDir := "/tmp";
     mtx := unlocked; syncer := Some [] |}.

Definition envelope_from (p : PeerID) (m : Message) : Envelope :=
  {| From := p; To := []; Broadcast := false; Msg := m |}.

End Demo.

(** ** The rest of the reactor *)

(** [p2p.ChannelDescriptor], the fields the reactor sets. *)
Record ChannelDescriptor := {
  ID : N;
  Priority : Z;
  SendQueueCapacity : Z;
  RecvMessageCapacity : Z
}.

(** GetChannels implements p2p.Reactor.  The two message size limits are
    constants of statesync/messages.go. *)
Definition GetChannels (snapshotMsgSize chunkMsgSize : Z) : list ChannelDescriptor :=
  [ {| ID := SnapshotChannel; Priority := 3; SendQueueCapacity := 10;
       RecvMessageCapacity := snapshotMsgSize |};
    {| ID := ChunkChannel; Priority := 1; SendQueueCapacity := 4;
       RecvMessageCapacity := chunkMsgSize |} ].

(** NewReactorDeprecated creates a new state sync reactor using the
    deprecated p2p stack.  Only [conn] and [connQuery] are stored; the other
    fields have their zero values and the base reactor is not running. *)
Definition NewReactorDeprecated `{Collaborators}
  (conn : AppConnSnapshot) (connQuery : AppConnQuery) (tempDir : string) : Reactor :=
  {| IsRunning := false; conn := conn; connQuery := connQuery; tempDir := "";
     mtx := unlocked; syncer := None |}.

(** OnStart implements p2p.Reactor. *)
Definition OnStart `{Collaborators} (r : Reactor) : option error := None.

(** ** More vocabulary *)

(** What the handlers never write: everything but the mutex and the
    session. *)
Definition configuration `{Collaborators} (r : Reactor)
  : bool * AppConnSnapshot * AppConnQuery * string :=
  (IsRunning r, conn r, connQuery r, tempDir r).

Definition session_active `{Collaborators} (r : Reactor) : bool :=
  match syncer r with Some _ => true | None => false end.

Definition same_peer (p q : PeerID) : bool :=
  if list_eq_dec Byte.byte_eq_dec p q then true else false.

(** An envelope with [To] alone set, to [p]. *)
Definition addressed_to (p : PeerID) (env : Envelope) : bool :=
  same_peer (To env) p && negb (Broadcast env) &&
  match From env with [] => true | _ => false end.

(** What the loop may do for input [i]: write a log line, or answer on the
    channel the input came in on, to the peer it came from. *)
Definition answers (i : Input) (e : Event) : bool :=
  match e, i with
  | Log _ _, _ => true
  | SnapshotChOut env, snapshotCh_In _ => addressed_to (sender i) env
  | ChunkChOut env, chunkCh_In _ => addressed_to (sender i) env
  | _, _ => false
  end.

Definition is_request (m : Message) : bool :=
  match m with
  | SnapshotsRequest | ChunkRequest _ _ _ => true
  | _ => false
  end.





(** [a] and [b] are tied under the comparison of [recentSnapshots]. *)
Definition tied (a b : abci_Snapshot) : bool :=
  negb (snapshot_less a b) && negb (snapshot_less b a).

(** What handling input [i] hands to the session [s]: a response becomes one
    call, anything else none. *)
Definition feed `{Collaborators} (s : Syncer) (i : Input) : Syncer :=
  match i with
  | snapshotCh_In e =>
      match Msg e with
      | SnapshotsResponse h f c hash meta =>
          fst (AddSnapshot s (From e)
                 {| Height := h; Format := f; Chunks := c;
                    Hash := hash; Metadata := meta |})
      | _ => s
      end
  | chunkCh_In e =>
      match Msg e with
      | ChunkResponse h f i c _ =>
          fst (AddChunk s {| chunk_Height := h; chunk_Format := f; chunk_Index := i;
                             chunk_Chunk := c; chunk_Sender := From e |})
      | _ => s
      end
  | _ => s
  end.

(** ** The echo reactor of the architecture record (ADR 062)

    The record shows how a reactor is written against the new stack: a
    wrapper message with its Wrap and Unwrap, and a reactor that answers
    pings. *)

Module Echo.

Record PingMessage := { Ping_Content : string }.
Record PongMessage := { Pong_Content : string }.

(** The dynamic type of a proto.Message handed to the echo code. *)
Inductive proto_Message :=
| Ping (m : PingMessage)
| Pong (m : PongMessage)
| Other (type_name : string).

(** The oneof field of EchoMessage: nil, or one of its two wrappers. *)
Inductive isEchoMessage_Inner :=
| EchoMessage_PingMessage (m : PingMessage)
| EchoMessage_PongMessage (m : PongMessage).

Record EchoMessage := { Inner : option isEchoMessage_Inner }.

(** Wrap will take a message and wrap it in this one. *)
Definition Wrap (m : EchoMessage) (inner : proto_Message)
  : EchoMessage * option error :=
  match inner with
  | Ping p => ({| Inner := Some (EchoMessage_PingMessage p) |}, None)
  | Pong p => ({| Inner := Some (EchoMessage_PongMessage p) |}, None)
  | Other type_name => (m, Some ("unknown message " ++ type_name)%string)
  end.

(** Unwrap will unwrap the inner message contained in this message. *)
Definition Unwrap (m : EchoMessage) : fallible proto_Message :=
  match Inner m with
  | Some (EchoMessage_PingMessage p) => OK (Ping p)
  | Some (EchoMessage_PongMessage p) => OK (Pong p)
  | None => Err "unknown message <nil>"
  end.

Record Envelope := {
  From : PeerID;
  To : PeerID;
  Broadcast : bool;
  Message : proto_Message
}.

Inductive PeerAction := PeerActionNone | PeerActionDisconnect | PeerActionBan.

Record PeerError := { ID : PeerID; Err_ : error; Action : PeerAction }.

Inductive Printed :=
| replied_with (from : PeerID) (content : string)
| changed_status (id : PeerID) (status : PeerStatus).

Inductive Event :=
| channel_Out (e : Envelope)
| peerErrors_send (e : PeerError)
| Printf (p : Printed).

Inductive Input :=
| ticker_C
| channel_In (envelope : Envelope)
| peerUpdates_In (peerUpdate : PeerUpdate)
| ctx_Done.









Definition is_ctx_Done (i : Input) : bool :=
  match i with ctx_Done => true | _ => false end.

End Echo.

(** ** Sync beside the loop

    [Sync] is called from another goroutine than the one running [Start].
    It touches the reactor in its two critical sections only, and each is
    seen by the loop as one step between two of its iterations. *)

Section Beside.
Context `{Collaborators} `{SliceSorter}.

(** Lines 406 to 412 of Sync, its first critical section: it yields the
    session it has created, or none when one was in progress. *)
Definition Sync_begin (r : Reactor) (stateProvider : StateProvider)
  : result (Reactor * option Syncer) :=
  m <- Lock (mtx r) ;;
  let r := set_mtx r m in
  match syncer r with
  | Some _ =>
      m <- Unlock (mtx r) ;;
      Ret (set_mtx r m, None)
  | None =>
      let s := newSyncer (conn r) (connQuery r) stateProvider (tempDir r) in
      let r := set_syncer r (Some s) in
      m <- Unlock (mtx r) ;;
      Ret (set_mtx r m, Some s)
  end.

(** Lines 419 to 421 of Sync, its second critical section. *)
Definition Sync_end (r : Reactor) : result Reactor :=
  m <- Lock (mtx r) ;;
  let r := set_syncer (set_mtx r m) None in
  m <- Unlock (mtx r) ;;
  Ret (set_mtx r m).

(** The reactor as the other goroutines find it after a call on [r]: as the
    call returned it or, while the call waits, [r] with the mutex as the
    waiting call has left it. *)
Definition found_after {A} (r : Reactor) (call : result A) (returned : A -> Reactor)
  : Reactor :=
  match call with
  | Ret a => returned a
  | Blocks behind => set_mtx r behind
  | Fatal _ => r
  end.

Inductive Step :=
| loop_takes (i : Input)
| Sync_enters (stateProvider : StateProvider)
| Sync_leaves.

(** The loop with calls to Sync arriving between its iterations. *)
Fixpoint Start_beside_Sync (fr : Frame) (steps : list Step)
  : result (Frame + Reactor * list Event) :=
  match steps with
  | [] => Ret (inl fr)
  | loop_takes ctx_Done :: _ =>
      r <- run_deferred (deferred fr) (self fr) ;;
      Ret (inr (r, trace fr))
  | loop_takes i :: steps' =>
      fr' <- Start_iteration fr i ;;
      Start_beside_Sync fr' steps'
  | Sync_enters stateProvider :: steps' =>
      let r := found_after (self fr) (Sync_begin (self fr) stateProvider) fst in
      Start_beside_Sync (with_self fr r) steps'
  | Sync_leaves :: steps' =>
      let r := found_after (self fr) (Sync_end (self fr)) (fun r' => r') in
      Start_beside_Sync (with_self fr r) steps'
  end.

Definition is_Sync_step (s : Step) : bool :=
  match s with loop_takes _ => false | _ => true end.

End Beside.

(** ** The sorter *)

Lemma insert_by_perm {A} (less : A -> A -> bool) x l :
  Permutation (insert_by less x l) (x :: l).
Proof.
  induction l as [|y l IH]; simpl.
  - apply Permutation_refl.
  - destruct (less x y).
    + apply Permutation_refl.
    + eapply perm_trans; [apply perm_skip, IH | apply perm_swap].
Qed.

Lemma fold_insert_perm {A} (less : A -> A -> bool) l acc :
  Permutation (fold_left (fun acc x => insert_by less x acc) l acc) (l ++ acc).
Proof.
  revert acc; induction l as [|x l IH]; intros acc; simpl.
  - apply Permutation_refl.
  - eapply perm_trans; [apply IH|].
    eapply perm_trans; [apply Permutation_app_head, insert_by_perm|].
    symmetry. apply Permutation_middle.
Qed.

Lemma insert_by_sorted {A} (less : A -> A -> bool) x l :
  (forall a b, less a b = true -> less b a = false) ->
  Sorted (fun a b => less b a = false) l ->
  Sorted (fun a b => less b a = false) (insert_by less x l).
Proof.
  intros asym Hs. induction Hs as [|y l Hs IH Hhd]; simpl.
  - repeat constructor.
  - destruct (less x y) eqn:E.
    + constructor; [constructor; assumption|]. constructor. now apply asym.
    + constructor; [exact IH|].
      destruct l as [|z l]; simpl.
      * constructor. exact E.
      * destruct (less x z); constructor; [exact E|].
        now inversion Hhd.
Qed.

Lemma fold_insert_sorted {A} (less : A -> A -> bool) l acc :
  (forall a b, less a b = true -> less b a = false) ->
  Sorted (fun a b => less b a = false) acc ->
  Sorted (fun a b => less b a = false)
         (fold_left (fun acc x => insert_by less x acc) l acc).
Proof.
  intros asym. revert acc; induction l as [|x l IH]; intros acc Hs; simpl.
  - exact Hs.
  - apply IH. now apply insert_by_sorted.
Qed.

Definition insertion_sorter : SliceSorter.
Proof.
  refine {| sort_Slice := @insertion_sort |}.
  - intros A less l. unfold insertion_sort.
    rewrite <- (app_nil_r l) at 2. apply fold_insert_perm.
  - intros A less l [asym _]. unfold insertion_sort.
    apply fold_insert_sorted; [exact asym | constructor].
Defined.

(** ** The order of [recentSnapshots] *)

Lemma snapshot_less_spec a b :
  snapshot_less b a = false <-> snapshot_ge (to_snapshot a) (to_snapshot b).
Proof.
  unfold snapshot_less, snapshot_ge; simpl.
  destruct (N.ltb_spec (abci_Height a) (abci_Height b)) as [Hlt|Hge].
  - split; [discriminate|]. intros [H|[H _]]; lia.
  - destruct (N.eqb_spec (abci_Height b) (abci_Height a)) as [Heq|Hne]; simpl.
    + destruct (N.ltb_spec (abci_Format a) (abci_Format b)) as [Flt|Fge].
      * split; [discriminate|]. intros [H|[_ H]]; lia.
      * split; [|reflexivity]. intros _. right. split; [congruence|exact Fge].
    + split; [|reflexivity]. intros _. left. lia.
Qed.

Lemma snapshot_ge_trans a b c :
  snapshot_ge a b -> snapshot_ge b c -> snapshot_ge a c.
Proof. unfold snapshot_ge. intros [H1|[H1 F1]] [H2|[H2 F2]]; (left; lia) || (right; lia). Qed.

Lemma snapshot_less_strict_weak : strict_weak snapshot_less.
Proof.
  split.
  - intros a b Hab. apply snapshot_less_spec.
    destruct (snapshot_less b a) eqn:Hba.
    + exfalso. unfold snapshot_less in Hab, Hba.
      destruct (N.ltb_spec (abci_Height b) (abci_Height a));
      destruct (N.ltb_spec (abci_Height a) (abci_Height b));
      destruct (N.eqb_spec (abci_Height a) (abci_Height b));
      destruct (N.eqb_spec (abci_Height b) (abci_Height a));
      destruct (N.ltb_spec (abci_Format b) (abci_Format a));
      destruct (N.ltb_spec (abci_Format a) (abci_Format b));
      simpl in *; try discriminate; lia.
    + now apply snapshot_less_spec.
  - intros a b c Hab Hbc. apply snapshot_less_spec.
    apply snapshot_less_spec in Hab, Hbc.
    eapply snapshot_ge_trans; eassumption.
Qed.

Lemma Sorted_descending l :
  Sorted (fun a b => snapshot_less b a = false) l ->
  descending (map to_snapshot l).
Proof.
  intros Hs. apply Sorted_StronglySorted.
  - intros a b c. apply snapshot_ge_trans.
  - induction Hs as [|a l Hs IH Hhd]; simpl; constructor.
    + exact IH.
    + destruct Hhd; simpl; constructor. now apply snapshot_less_spec.
Qed.

Lemma In_firstn {A} n (l : list A) x : In x (firstn n l) -> In x l.
Proof.
  revert l; induction n as [|n IH]; intros [|a l]; simpl; try tauto.
  intros [Hx|Hx]; [now left | right; now apply IH].
Qed.

Lemma descending_firstn n l : descending l -> descending (firstn n l).
Proof.
  unfold descending. revert l; induction n as [|n IH]; intros l Hs; simpl.
  - constructor.
  - destruct l as [|a l]; [constructor|].
    inversion Hs as [|? ? Hl Hall]; subst. constructor.
    + now apply IH.
    + rewrite Forall_forall in *. intros x Hx. apply Hall.
      eapply In_firstn; exact Hx.
Qed.

Lemma collect_firstn i l acc :
  collect i l acc = (acc ++ map to_snapshot (firstn (recentSnapshots - i) l))%list.
Proof.
  revert i acc; induction l as [|s l IH]; intros i acc.
  - rewrite firstn_nil. simpl. now rewrite app_nil_r.
  - cbn [collect]. destruct (Nat.leb_spec recentSnapshots i) as [Hle|Hlt].
    + replace (recentSnapshots - i) with 0 by lia. simpl. now rewrite app_nil_r.
    + rewrite IH. replace (recentSnapshots - i) with (S (recentSnapshots - S i)) by lia.
      rewrite firstn_cons. simpl map. now rewrite <- app_assoc.
Qed.

Lemma recentSnapshots_eq `{Collaborators} `{SliceSorter} (r : Reactor) n l :
  ListSnapshotsSync (conn r) = OK l ->
  Reactor_recentSnapshots r n =
  OK (map to_snapshot (firstn recentSnapshots (sort_Slice snapshot_less l))).
Proof.
  intros Hl. unfold Reactor_recentSnapshots. rewrite Hl.
  rewrite collect_firstn, Nat.sub_0_r. reflexivity.
Qed.

(** ** recentSnapshots *)

(** C9: whatever [n] is and whatever list the application returns,
    [recentSnapshots(n)] returns min(10, length of the list) snapshots, so at
    most 10; the result does not depend on [n]; and it is in descending
    (Height, Format) order. *)
Theorem recentSnapshots_cap_and_order `{Collaborators} `{SliceSorter} :
  forall (r : Reactor) (n : N) (l : list abci_Snapshot),
    ListSnapshotsSync (conn r) = OK l ->
    exists snapshots,
      Reactor_recentSnapshots r n = OK snapshots /\
      List.length snapshots = Nat.min recentSnapshots (List.length l) /\
      List.length snapshots <= 10 /\
      (forall n', Reactor_recentSnapshots r n' = OK snapshots) /\
      descending snapshots.
Proof.
  intros r n l Hl.
  exists (map to_snapshot (firstn recentSnapshots (sort_Slice snapshot_less l))).
  split; [now apply recentSnapshots_eq|].
  assert (Hlen : List.length (map to_snapshot
                   (firstn recentSnapshots (sort_Slice snapshot_less l)))
                 = Nat.min recentSnapshots (List.length l)).
  { rewrite length_map, length_firstn.
    now rewrite (Permutation_length (sort_Slice_perm _ snapshot_less l)). }
  split; [exact Hlen|].
  split; [rewrite Hlen; unfold recentSnapshots; lia|].
  split; [intros n'; now apply recentSnapshots_eq|].
  rewrite <- firstn_map. apply descending_firstn, Sorted_descending.
  apply sort_Slice_sorted, snapshot_less_strict_weak.
Qed.

Lemma recentSnapshots_cap_and_order_witness :
  ListSnapshotsSync (conn Demo.idle) = OK [Demo.snap 5 1; Demo.snap 7 1; Demo.snap 7 2] /\
  exists snapshots,
    @Reactor_recentSnapshots Demo.collaborators insertion_sorter Demo.idle 3 = OK snapshots /\
    List.length snapshots = Nat.min recentSnapshots 3 /\
    List.length snapshots <= 10 /\
    (forall n', @Reactor_recentSnapshots Demo.collaborators insertion_sorter Demo.idle n'
                = OK snapshots) /\
    descending snapshots.
Proof.
  split; [reflexivity|].
  exact (@recentSnapshots_cap_and_order Demo.collaborators insertion_sorter
           Demo.idle 3 _ eq_refl).
Defined.

(** The cap is the constant and not the argument: asked for 3 of 12
    snapshots the function returns 10, asked for 20 of 3 it returns 3. *)
Example recentSnapshots_ignores_n :
  let many := map (fun h => Demo.snap h 1) [1; 2; 3; 4; 5; 6; 7; 8; 9; 10; 11; 12]%N in
  let r := @Build_Reactor Demo.collaborators true
             {| ListSnapshotsSync := OK many;
                LoadSnapshotChunkSync := fun _ => Err "none" |}
             tt "" unlocked None in
  (exists out, @Reactor_recentSnapshots _ insertion_sorter r 3 = OK out /\
               map Height out = [12; 11; 10; 9; 8; 7; 6; 5; 4; 3]%N) /\
  (exists out, @Reactor_recentSnapshots _ insertion_sorter Demo.idle 20 = OK out /\
               map (fun s => (Height s, Format s)) out = [(7, 2); (7, 1); (5, 1)]%N).
Proof. split; eexists; split; reflexivity. Qed.

(** ** Serving requests *)

Lemma advertise_sent to l :
  snapshotCh_sent (flat_map (advertise to) (map to_snapshot l))
  = map (SnapshotsResponse_to to) l /\
  chunkCh_sent (flat_map (advertise to) (map to_snapshot l)) = [].
Proof.
  induction l as [|s l [IH1 IH2]]; simpl; [split; reflexivity|].
  split; [now rewrite IH1 | exact IH2].
Qed.

(** C2: on a SnapshotsRequest, whatever list the application returns, the
    list is sorted descending by (Height, Format), at most its first 10
    entries are kept, and the snapshot channel gets exactly one
    SnapshotsResponse per kept snapshot, in that order, addressed to the
    requester and carrying the snapshot's five fields; nothing else is sent
    and the reactor is left as it was. *)
Theorem Start_SnapshotsRequest_advertises `{Collaborators} `{SliceSorter} :
  forall (fr : Frame) (envelope : Envelope) (l : list abci_Snapshot),
    Msg envelope = SnapshotsRequest ->
    ListSnapshotsSync (conn (self fr)) = OK l ->
    let sorted := sort_Slice snapshot_less l in
    let kept := firstn 10 sorted in
    Permutation sorted l /\
    descending (map to_snapshot sorted) /\
    List.length kept <= 10 /\
    exists evs,
      Start_iteration fr (snapshotCh_In envelope) = Ret (emit fr evs) /\
      snapshotCh_sent evs = map (SnapshotsResponse_to (From envelope)) kept /\
      chunkCh_sent evs = [].
Proof.
  intros fr envelope l Hmsg Hl sorted kept.
  split; [apply sort_Slice_perm|].
  split; [apply Sorted_descending, sort_Slice_sorted, snapshot_less_strict_weak|].
  split; [apply firstn_le_length|].
  exists (flat_map (advertise (From envelope)) (map to_snapshot kept)).
  split; [|apply advertise_sent].
  simpl. unfold Start_snapshotCh. rewrite Hmsg.
  now rewrite (recentSnapshots_eq _ _ l Hl).
Qed.

Lemma Start_SnapshotsRequest_advertises_witness :
  let fr := @enter Demo.collaborators Demo.idle in
  let envelope := Demo.envelope_from Demo.peerB SnapshotsRequest in
  ListSnapshotsSync (conn (self fr)) = OK [Demo.snap 5 1; Demo.snap 7 1; Demo.snap 7 2] /\
  exists evs,
    Start_iteration (H0 := insertion_sorter) fr (snapshotCh_In envelope)
    = Ret (emit fr evs) /\
    snapshotCh_sent evs
    = map (SnapshotsResponse_to Demo.peerB) [Demo.snap 7 2; Demo.snap 7 1; Demo.snap 5 1].
Proof.
  intros fr envelope. split; [reflexivity|].
  destruct (@Start_SnapshotsRequest_advertises Demo.collaborators insertion_sorter
              fr envelope _ eq_refl eq_refl) as (_ & _ & _ & evs & Hrun & Hsent & _).
  exists evs. split; [exact Hrun | exact Hsent].
Defined.

(** C3: on a ChunkRequest that the application answers without error, the
    chunk channel gets exactly one ChunkResponse, addressed to the requester,
    with the requested Height, Format and Index, the loaded payload, and
    Missing set exactly when that payload is nil.  A nil payload is no
    failure: the iteration returns, logs nothing at error level and reports
    no peer. *)
Theorem Start_ChunkRequest_responds `{Collaborators} `{SliceSorter} :
  forall (fr : Frame) (envelope : Envelope) (h f i : N)
         (resp : ResponseLoadSnapshotChunk),
    Msg envelope = ChunkRequest h f i ->
    LoadSnapshotChunkSync (conn (self fr))
      {| req_Height := h; req_Format := f; req_Chunk := i |} = OK resp ->
    exists evs missing,
      Start_iteration fr (chunkCh_In envelope) = Ret (emit fr evs) /\
      chunkCh_sent evs =
        [ {| From := []; To := From envelope; Broadcast := false;
             Msg := ChunkResponse h f i (resp_Chunk resp) missing |} ] /\
      (missing = true <-> resp_Chunk resp = None) /\
      snapshotCh_sent evs = [] /\
      existsb is_failure evs = false.
Proof.
  intros fr envelope h f i resp Hmsg Hload.
  eexists; exists (is_nil (resp_Chunk resp)).
  split.
  - simpl. unfold Start_chunkCh. rewrite Hmsg. simpl. rewrite Hload.
    unfold emit; simpl. rewrite <- app_assoc. reflexivity.
  - repeat split; try reflexivity.
    + destruct (resp_Chunk resp); simpl; [discriminate | reflexivity].
    + intros ->; reflexivity.
Qed.

Lemma Start_ChunkRequest_responds_witness :
  exists evs,
    Start_iteration (H0 := insertion_sorter) (@enter Demo.collaborators Demo.idle)
      (chunkCh_In (Demo.envelope_from Demo.peerB (ChunkRequest 7 2 2)))
    = Ret (emit (enter Demo.idle) evs) /\
    chunkCh_sent evs =
      [ {| From := []; To := Demo.peerB; Broadcast := false;
           Msg := ChunkResponse 7 2 2 None true |} ].
Proof.
  destruct (@Start_ChunkRequest_responds Demo.collaborators insertion_sorter
              (enter Demo.idle) (Demo.envelope_from Demo.peerB (ChunkRequest 7 2 2))
              7%N 2%N 2%N {| resp_Chunk := None |} eq_refl eq_refl)
    as (evs & missing & Hrun & Hsent & Hmiss & _).
  exists evs. split; [exact Hrun|].
  rewrite Hsent. destruct missing; [reflexivity|].
  destruct Hmiss as [_ Hm]. discriminate (Hm eq_refl).
Defined.

(** C10: on a ChunkRequest for which the application returns an error, the
    reactor sends nothing at all, on either path (the dispatch loop and the
    legacy callback): it logs the error and goes on, its state unchanged and
    no peer reported. *)
Theorem ChunkRequest_load_error_no_response `{Collaborators} `{SliceSorter} :
  forall (fr : Frame) (envelope : Envelope) (src : Peer) (msgBytes : list Byte.byte)
         (h f i : N) (err : error),
    Msg envelope = ChunkRequest h f i ->
    LoadSnapshotChunkSync (conn (self fr))
      {| req_Height := h; req_Format := f; req_Chunk := i |} = Err err ->
    (exists evs,
        Start_iteration fr (chunkCh_In envelope) = Ret (emit fr evs) /\
        existsb is_send evs = false /\
        In (Log Error "failed to load chunk") evs /\
        existsb (is_peer_error (From envelope)) evs = false) /\
    (IsRunning (self fr) = true ->
     decodeMsg msgBytes = OK (ChunkRequest h f i) ->
     validateMsg (ChunkRequest h f i) = None ->
     exists evs,
        Receive (self fr) ChunkChannel src msgBytes = Ret (self fr, evs) /\
        existsb is_send evs = false /\
        In (Log Error "Failed to load chunk") evs /\
        existsb (is_peer_error src) evs = false).
Proof.
  intros fr envelope src msgBytes h f i err Hmsg Hload. split.
  - eexists. split.
    + simpl. unfold Start_chunkCh. rewrite Hmsg. simpl. rewrite Hload.
      unfold emit; simpl. rewrite <- app_assoc. reflexivity.
    + simpl. repeat split. right; left; reflexivity.
  - intros Hrun Hdec Hval. eexists. split.
    + unfold Receive. rewrite Hrun, Hdec, Hval. simpl. rewrite Hload. reflexivity.
    + simpl. repeat split. right; left; reflexivity.
Qed.

Lemma ChunkRequest_load_error_no_response_witness :
  (exists evs,
      Start_iteration (H0 := insertion_sorter) (@enter Demo.collaborators Demo.idle)
        (chunkCh_In (Demo.envelope_from Demo.peerB (ChunkRequest 9 1 0)))
      = Ret (emit (enter Demo.idle) evs) /\
      existsb is_send evs = false) /\
  (exists evs,
      Receive (H0 := insertion_sorter) Demo.idle ChunkChannel Demo.peerB
        [Byte.x03; Byte.x09; Byte.x01; Byte.x00] = Ret (Demo.idle, evs) /\
      existsb is_send evs = false).
Proof.
  destruct (@ChunkRequest_load_error_no_response Demo.collaborators insertion_sorter
              (enter Demo.idle) (Demo.envelope_from Demo.peerB (ChunkRequest 9 1 0))
              Demo.peerB [Byte.x03; Byte.x09; Byte.x01; Byte.x00]
              9%N 1%N 0%N "no such snapshot" eq_refl eq_refl) as [HS HR].
  split.
  - destruct HS as (evs & Hrun & Hsend & _). exists evs. now split.
  - destruct (HR eq_refl eq_refl eq_refl) as (evs & Hrun & Hsend & _).
    exists evs. now split.
Defined.

(** ** Messages a channel does not know *)

(** C5, as the code has it: a message of a type its channel does not know is
    logged at error level and nothing else happens: no peer is reported,
    nothing is sent, and the reactor, its mutex and its session are as
    before. *)
Theorem Start_unknown_message_only_logged `{Collaborators} `{SliceSorter} :
  forall (fr : Frame) (i : Input),
    unknown_on_channel i = true ->
    Start_iteration fr i = Ret (emit fr [Log Error "received unknown message: %T"]).
Proof.
  intros fr [e|e|u|] Hun; simpl in Hun; try discriminate; simpl.
  - unfold Start_snapshotCh. destruct (Msg e); simpl in Hun; try discriminate; reflexivity.
  - unfold Start_chunkCh. destruct (Msg e); simpl in Hun; try discriminate; reflexivity.
Qed.

Lemma Start_unknown_message_only_logged_witness :
  Start_iteration (H0 := insertion_sorter) (@enter Demo.collaborators Demo.idle)
    (chunkCh_In (Demo.envelope_from Demo.peerA SnapshotsRequest))
  = Ret (emit (enter Demo.idle) [Log Error "received unknown message: %T"]).
Proof.
  apply (@Start_unknown_message_only_logged Demo.collaborators insertion_sorter).
  reflexivity.
Defined.

(** C5, as stated, fails: a ChunkRequest arriving on the snapshot channel and
    a message of a foreign type arriving on the chunk channel are both
    unknown to their channel, and for neither is the sender reported. *)
Lemma unknown_message_sender_not_reported :
  let fr := @enter Demo.collaborators Demo.idle in
  let i1 := snapshotCh_In (Demo.envelope_from Demo.peerA (ChunkRequest 7 2 0)) in
  let i2 := chunkCh_In (Demo.envelope_from Demo.peerA (OtherMessage "PingMessage")) in
  unknown_on_channel i1 = true /\
  unknown_on_channel i2 = true /\
  ~ logged_and_reported (H0 := insertion_sorter) fr i1 /\
  ~ logged_and_reported (H0 := insertion_sorter) fr i2.
Proof.
  intros fr i1 i2. repeat split.
  - intros (fr' & evs & Hrun & Htr & _ & Hrep).
    inversion Hrun; subst fr'. simpl in Htr. subst evs. discriminate Hrep.
  - intros (fr' & evs & Hrun & Htr & _ & Hrep).
    inversion Hrun; subst fr'. simpl in Htr. subst evs. discriminate Hrep.
Qed.

(** ** Peer updates *)

Lemma Start_peer_update_only_logged `{Collaborators} `{SliceSorter} :
  forall (fr : Frame) (u : PeerUpdate),
    Start_iteration fr (peerUpdates_In u) = Ret (emit fr [Log Debug "peer update"]).
Proof. reflexivity. Qed.

Lemma RemovePeer_surfaced `{Collaborators} `{SliceSorter} :
  forall (r : Reactor) (s : Syncer) (peer : Peer),
    syncer r = Some s ->
    writer (mtx r) = false ->
    RemovePeer r peer = Ret (set_syncer r (Some (syncer_RemovePeer s peer)), tt).
Proof.
  intros [run c q t [n w] sy] s peer Hs Hw; simpl in *; subst.
  reflexivity.
Qed.

Lemma RemovePeer_no_session `{Collaborators} `{SliceSorter} :
  forall (r : Reactor) (peer : Peer),
    syncer r = None ->
    writer (mtx r) = false ->
    RemovePeer r peer = Ret (r, tt).
Proof.
  intros [run c q t [n w] sy] peer Hs Hw; simpl in *; subst.
  reflexivity.
Qed.

(** C7, at a failing input: with a session active, the update "peer A
    removed" taken by the dispatch loop leaves the session without any call
    on it, only a debug line is written; the legacy callback RemovePeer on
    the same reactor does call the session's RemovePeer. *)
Theorem Start_peer_update_not_surfaced :
  let u := {| update_ID := Demo.peerA; update_Status := PeerStatusRemoved |} in
  (exists fr',
      Start_iteration (H0 := insertion_sorter) (@enter Demo.collaborators Demo.syncing)
        (peerUpdates_In u) = Ret fr' /\
      syncer (self fr') = Some [] /\
      self fr' = Demo.syncing /\
      trace fr' = [Log Debug "peer update"]) /\
  (exists r',
      RemovePeer Demo.syncing Demo.peerA = Ret (r', tt) /\
      syncer r' = Some [Demo.call_RemovePeer Demo.peerA]).
Proof.
  split; eexists; repeat split.
Qed.

(** ** Responses and the read lock *)

Ltac run_iteration :=
  repeat match goal with
         | |- context [match ?x with _ => _ end] =>
             lazymatch x with
             | syncer _ => destruct x eqn:?
             | Reactor_recentSnapshots _ _ => destruct x eqn:?
             | LoadSnapshotChunkSync _ _ => destruct x eqn:?
             | AddSnapshot _ _ _ => destruct x as [? [? [?|]]] eqn:?
             | AddChunk _ _ => destruct x as [? [? [?|]]] eqn:?
             end; simpl
         | |- context [let '(_, _) := ?x in _] =>
             destruct x as [? [? [?|]]] eqn:?; simpl
         end.

(** One iteration returns whenever no writer holds or awaits the mutex; it leaves the
    writer flag alone and raises the count of readers by one exactly when the
    input is a response. *)
Lemma Start_iteration_readers `{Collaborators} `{SliceSorter} :
  forall (fr : Frame) (i : Input),
    writer (mtx (self fr)) = false ->
    exists fr',
      Start_iteration fr i = Ret fr' /\
      writer (mtx (self fr')) = false /\
      readers (mtx (self fr'))
      = readers (mtx (self fr)) + (if is_response i then 1 else 0) /\
      List.length (deferred fr')
      = List.length (deferred fr) + (if is_response i then 1 else 0).
Proof.
  intros fr [e|e|u|] Hw; simpl.
  - unfold Start_snapshotCh. destruct (Msg e); simpl;
      try (eexists; split; [reflexivity|]; simpl; repeat split; (assumption || lia)).
    + run_iteration; eexists; (split; [reflexivity|]); simpl; repeat split;
        (assumption || lia).
    + unfold RLock_defer, RLock. rewrite Hw. simpl.
      run_iteration; eexists; (split; [reflexivity|]); simpl; repeat split; lia.
  - unfold Start_chunkCh. destruct (Msg e); simpl;
      try (eexists; split; [reflexivity|]; simpl; repeat split; (assumption || lia)).
    + run_iteration; eexists; (split; [reflexivity|]); simpl; repeat split;
        (assumption || lia).
    + unfold RLock_defer, RLock. rewrite Hw. simpl.
      run_iteration; eexists; (split; [reflexivity|]); simpl; repeat split; lia.
  - eexists; split; [reflexivity|]; simpl; repeat split; (assumption || lia).
  - eexists; split; [reflexivity|]; simpl; repeat split; (assumption || lia).
Qed.

(** Until cancellation the loop keeps every read lock it has taken: the
    count of readers grows by the number of responses handled. *)
Lemma Start_keeps_read_locks `{Collaborators} `{SliceSorter} :
  forall (inputs : list Input) (fr : Frame),
    existsb is_ctx_Done inputs = false ->
    writer (mtx (self fr)) = false ->
    exists fr',
      Start fr inputs = Ret (inl fr') /\
      readers (mtx (self fr'))
      = readers (mtx (self fr)) + List.length (filter is_response inputs) /\
      List.length (deferred fr')
      = List.length (deferred fr) + List.length (filter is_response inputs).
Proof.
  induction inputs as [|i inputs IH]; intros fr Hdone Hw.
  - exists fr. simpl. repeat split; lia.
  - simpl in Hdone. apply orb_false_iff in Hdone as [Hi Hdone].
    destruct (Start_iteration_readers fr i Hw) as (fr1 & Hrun & Hw1 & Hr1 & Hd1).
    destruct (IH fr1 Hdone Hw1) as (fr' & Hrest & Hr' & Hd').
    exists fr'. split.
    + destruct i; try discriminate Hi; cbn [Start]; rewrite Hrun; exact Hrest.
    + simpl filter. destruct (is_response i); simpl; lia.
Qed.

(** With a session active a response is handed to it, together with its
    sender. *)
Lemma Start_response_forwarded `{Collaborators} `{SliceSorter} :
  forall (fr : Frame) (s : Syncer) (from : PeerID) (h f c i : N)
         (hash meta payload : bytes) (missing : bool),
    syncer (self fr) = Some s ->
    writer (mtx (self fr)) = false ->
    (exists fr',
        Start_iteration fr
          (snapshotCh_In {| From := from; To := []; Broadcast := false;
                            Msg := SnapshotsResponse h f c hash meta |}) = Ret fr' /\
        syncer (self fr') =
          Some (fst (AddSnapshot s from
                       {| Height := h; Format := f; Chunks := c;
                          Hash := hash; Metadata := meta |}))) /\
    (exists fr',
        Start_iteration fr
          (chunkCh_In {| From := from; To := []; Broadcast := false;
                         Msg := ChunkResponse h f i payload missing |}) = Ret fr' /\
        syncer (self fr') =
          Some (fst (AddChunk s
                       {| chunk_Height := h; chunk_Format := f; chunk_Index := i;
                          chunk_Chunk := payload; chunk_Sender := from |}))).
Proof.
  intros fr s from h f c i hash meta payload missing Hs Hw. split.
  - simpl. unfold Start_snapshotCh, RLock_defer, RLock. simpl. rewrite Hw. simpl.
    rewrite Hs. simpl.
    destruct (AddSnapshot _ _ _) as [s' [b [e|]]]; eexists; split; reflexivity.
  - simpl. unfold Start_chunkCh, RLock_defer, RLock. simpl. rewrite Hw. simpl.
    rewrite Hs. simpl.
    destruct (AddChunk _ _) as [s' [b [e|]]]; eexists; split; reflexivity.
Qed.

(** The legacy callback, with no session: the message is dropped and the
    reactor, mutex included, is as before. *)
Lemma Receive_response_discarded `{Collaborators} `{SliceSorter} :
  forall (r : Reactor) (src : Peer) (chID : N) (h f c i : N)
         (hash meta payload : bytes) (missing : bool),
    syncer r = None ->
    writer (mtx r) = false ->
    Receive_snapshot r chID src (SnapshotsResponse h f c hash meta)
    = Ret (r, [Log Debug "Received unexpected snapshot, no state sync in progress"]) /\
    Receive_chunk r src (ChunkResponse h f i payload missing)
    = Ret (r, [Log Debug "Received unexpected chunk, no state sync in progress"]).
Proof.
  intros [run cn q t [n w] sy] src chID h f c i hash meta payload missing Hs Hw.
  simpl in *; subst. split; reflexivity.
Qed.

(** C4, at a failing input: with no session, a SnapshotsResponse and a
    ChunkResponse taken by the dispatch loop are dropped with a debug line
    and no failure, but the reactor is not as it was: the read lock taken for
    the check stays taken, its release waiting among the deferred calls of
    [Start].  The legacy callback drops the same messages and gives the
    reactor back unchanged. *)
Theorem Start_discarded_response_changes_mutex :
  let fr := @enter Demo.collaborators Demo.idle in
  let m1 := SnapshotsResponse 7 2 3 (Some [Byte.xab]) None in
  let m2 := ChunkResponse 7 2 0 (Some [Byte.x2a]) false in
  (exists fr',
      Start_iteration (H0 := insertion_sorter) fr
        (snapshotCh_In (Demo.envelope_from Demo.peerA m1)) = Ret fr' /\
      syncer (self fr') = None /\
      existsb is_failure (trace fr') = false /\
      mtx (self fr') = {| readers := 1; writer := false |} /\
      deferred fr' = [defer_RUnlock] /\
      self fr' <> self fr) /\
  (exists fr',
      Start_iteration (H0 := insertion_sorter) fr
        (chunkCh_In (Demo.envelope_from Demo.peerA m2)) = Ret fr' /\
      syncer (self fr') = None /\
      existsb is_failure (trace fr') = false /\
      mtx (self fr') = {| readers := 1; writer := false |} /\
      deferred fr' = [defer_RUnlock] /\
      self fr' <> self fr) /\
  (exists evs,
      Receive_snapshot (H0 := insertion_sorter) Demo.idle SnapshotChannel Demo.peerA m1
      = Ret (Demo.idle, evs)) /\
  (exists evs, Receive_chunk Demo.idle Demo.peerA m2 = Ret (Demo.idle, evs)).
Proof.
  intros fr m1 m2. repeat split.
  - eexists. repeat split. intros Heq.
    apply (f_equal (fun r => readers (mtx r))) in Heq. discriminate Heq.
  - eexists. repeat split. intros Heq.
    apply (f_equal (fun r => readers (mtx r))) in Heq. discriminate Heq.
  - eexists. reflexivity.
  - eexists. reflexivity.
Qed.

(** ** Sync *)

Lemma Lock_held (m : RWMutex) :
  held m = true -> Lock m = Blocks {| readers := readers m; writer := true |}.
Proof.
  destruct m as [n w]. unfold held, Lock; simpl. destruct w; [reflexivity|].
  destruct n; [discriminate | reflexivity].
Qed.

(** The check at the head of Sync, with a session active.  If nobody holds
    the mutex, Sync returns the error "a state sync is already in progress"
    with the zero state and no commit, having broadcast nothing and logged
    nothing, the reactor (session and mutex included) exactly as before.
    Otherwise it waits in Lock, having announced itself as a writer and done
    nothing else. *)
Theorem Sync_already_in_progress `{Collaborators} :
  forall (r : Reactor) (s : Syncer) (stateProvider : StateProvider) (discoveryTime : Z),
    syncer r = Some s ->
    (held (mtx r) = false ->
     Sync r stateProvider discoveryTime
     = Ret (r, (State_zero, None, Some already_in_progress), [])) /\
    (held (mtx r) = true ->
     Sync r stateProvider discoveryTime
     = Blocks {| readers := readers (mtx r); writer := true |}).
Proof.
  intros [run c q t [n w] sy] s sp dt Hs; simpl in Hs; subst sy. split.
  - unfold held; simpl. intros Hfree.
    destruct w; [discriminate|]. destruct n; [reflexivity | discriminate].
  - simpl mtx. intros Hheld. unfold Sync. simpl mtx. now rewrite (Lock_held _ Hheld).
Qed.

Lemma Sync_already_in_progress_witness :
  Sync Demo.syncing tt 15
  = Ret (Demo.syncing, (tt, None, Some already_in_progress), []).
Proof.
  exact (proj1 (@Sync_already_in_progress Demo.collaborators Demo.syncing [] tt 15%Z
                  eq_refl) eq_refl).
Defined.

(** C6: a call to Sync that finds no session and gets the mutex creates the
    session, and then, in this order, logs, broadcasts one SnapshotsRequest
    on the snapshot channel through the switch, and only then runs the
    session's SyncAny; there is no other broadcast.  It returns what SyncAny
    returned, with the session slot empty again. *)
Theorem Sync_broadcasts_once `{Collaborators} :
  forall (r : Reactor) (stateProvider : StateProvider) (discoveryTime : Z),
    syncer r = None ->
    held (mtx r) = false ->
    let s := newSyncer (conn r) (connQuery r) stateProvider (tempDir r) in
    exists evs,
      Sync r stateProvider discoveryTime = Ret (r, snd (SyncAny s discoveryTime), evs) /\
      evs = [ Log Debug "Requesting snapshots from known peers";
              SwitchBroadcast SnapshotChannel SnapshotsRequest;
              SyncAnyCall discoveryTime ] /\
      filter is_broadcast evs = [SwitchBroadcast SnapshotChannel SnapshotsRequest].
Proof.
  intros [run c q t [n w] sy] sp dt Hs Hfree s; simpl in Hs; subst sy.
  unfold held in Hfree; simpl in Hfree.
  destruct w; [discriminate|]. destruct n; [|discriminate].
  eexists. split; [|split; reflexivity].
  unfold Sync; simpl. subst s; simpl.
  destruct (SyncAny _ dt) as [s' res]; reflexivity.
Qed.

Lemma Sync_broadcasts_once_witness :
  Sync Demo.idle tt 15
  = Ret (Demo.idle, (tt, None, Some "no suitable snapshot found"),
         [ Log Debug "Requesting snapshots from known peers";
           SwitchBroadcast SnapshotChannel SnapshotsRequest;
           SyncAnyCall 15 ]).
Proof.
  destruct (@Sync_broadcasts_once Demo.collaborators Demo.idle tt 15%Z eq_refl eq_refl)
    as (evs & Hrun & Hevs & _).
  rewrite Hrun, Hevs. reflexivity.
Defined.

(** ** The read lock across iterations *)

(** C8, at a failing input: the loop takes a SnapshotsResponse (no session),
    then a SnapshotsRequest, then a ChunkRequest.  The read lock taken for
    the first message is still held when the second is handled and its three
    responses are sent, still held after the chunk is sent, and a call to
    Sync on that reactor waits in Lock; the lock is given back only when the
    loop returns on cancellation. *)
Theorem Start_holds_read_lock_across_sends :
  let fr := @enter Demo.collaborators Demo.idle in
  let i1 := snapshotCh_In (Demo.envelope_from Demo.peerA
                             (SnapshotsResponse 7 2 3 (Some [Byte.xab]) None)) in
  let i2 := snapshotCh_In (Demo.envelope_from Demo.peerB SnapshotsRequest) in
  let i3 := chunkCh_In (Demo.envelope_from Demo.peerB (ChunkRequest 7 2 0)) in
  exists fr1 fr2 fr3 r,
    Start_iteration (H0 := insertion_sorter) fr i1 = Ret fr1 /\
    held (mtx (self fr1)) = true /\
    Start_iteration (H0 := insertion_sorter) fr1 i2 = Ret fr2 /\
    List.length (snapshotCh_sent (trace fr2)) = 3 /\
    held (mtx (self fr2)) = true /\
    Start_iteration (H0 := insertion_sorter) fr2 i3 = Ret fr3 /\
    List.length (chunkCh_sent (trace fr3)) = 1 /\
    held (mtx (self fr3)) = true /\
    Sync (self fr3) tt 15 = Blocks {| readers := 1; writer := true |} /\
    Start (H0 := insertion_sorter) fr [i1; i2; i3] = Ret (inl fr3) /\
    Start (H0 := insertion_sorter) fr [i1; i2; i3; ctx_Done] = Ret (inr (r, trace fr3)) /\
    held (mtx r) = false.
Proof.
  intros fr i1 i2 i3. do 4 eexists. repeat split.
Qed.

(** C1, at a failing input: a session is active and the dispatch loop has
    handled one ChunkResponse.  A call to Sync on that reactor does not
    return the error: it announces itself as a writer and waits in Lock for
    the read lock that the loop took for the response and, its release being
    deferred to the return of [Start], still holds.  On the reactor before
    that response, and on the reactor after the legacy Receive has handled
    the same message, Sync does return the error at once and changes
    nothing. *)
Theorem Sync_with_session_waits_behind_the_loop :
  let response := ChunkResponse 7 2 0 None true in
  let error_return (r : @Reactor Demo.collaborators) :=
    Sync r tt 15 = Ret (r, (tt, None, Some already_in_progress), []) in
  exists fr' r',
    Start_iteration (H0 := insertion_sorter) (@enter Demo.collaborators Demo.syncing)
      (chunkCh_In (Demo.envelope_from Demo.peerA response)) = Ret fr' /\
    session_active (self fr') = true /\
    Sync (self fr') tt 15 = Blocks {| readers := 1; writer := true |} /\
    error_return Demo.syncing /\
    @decodeMsg Demo.collaborators [Byte.x04; Byte.x07; Byte.x02; Byte.x00] = OK response /\
    Receive (H0 := insertion_sorter) Demo.syncing ChunkChannel Demo.peerA
      [Byte.x04; Byte.x07; Byte.x02; Byte.x00]
    = Ret (r', [Log Debug "Received chunk, adding to sync"]) /\
    session_active r' = true /\
    error_return r'.
Proof.
  intros response error_return. do 2 eexists. repeat split.
Qed.

(** ** What one iteration may do *)

Lemma same_peer_refl p : same_peer p p = true.
Proof. unfold same_peer. destruct (list_eq_dec Byte.byte_eq_dec p p); congruence. Qed.

Lemma same_peer_eq p q : same_peer p q = true -> p = q.
Proof. unfold same_peer. destruct (list_eq_dec Byte.byte_eq_dec p q); congruence. Qed.

Lemma advertise_answers (e : Envelope) l :
  forallb (answers (snapshotCh_In e)) (flat_map (advertise (From e)) l) = true.
Proof.
  induction l as [|s l IH]; simpl; [reflexivity|].
  unfold addressed_to; simpl. now rewrite same_peer_refl, IH.
Qed.

Ltac close_effect :=
  do 2 eexists; (split; [reflexivity|]);
  (split; [simpl; rewrite <- ?app_assoc; reflexivity|]);
  simpl; unfold configuration, session_active, addressed_to; simpl;
  repeat match goal with Hs : syncer _ = _ |- _ => rewrite Hs; clear Hs end;
  rewrite ?same_peer_refl; solve [repeat split].

(** An iteration returns whenever no writer holds or awaits the mutex.  It appends to
    the trace, only log lines and answers to the sender; it leaves the
    configuration alone, and the session slot stays empty or stays filled. *)
Lemma Start_iteration_effect `{Collaborators} `{SliceSorter} :
  forall (fr : Frame) (i : Input),
    writer (mtx (self fr)) = false ->
    exists fr' evs,
      Start_iteration fr i = Ret fr' /\
      trace fr' = (trace fr ++ evs)%list /\
      configuration (self fr') = configuration (self fr) /\
      session_active (self fr') = session_active (self fr) /\
      forallb (answers i) evs = true.
Proof.
  intros fr [e|e|u|] Hw; simpl.
  - unfold Start_snapshotCh. destruct (Msg e) eqn:Hm; simpl; try close_effect.
    + run_iteration; try close_effect.
      do 2 eexists. split; [reflexivity|]. split; [reflexivity|].
      repeat split. apply advertise_answers.
    + unfold RLock_defer, RLock. rewrite Hw. simpl.
      run_iteration; close_effect.
  - unfold Start_chunkCh. destruct (Msg e) eqn:Hm; simpl; try close_effect.
    + run_iteration; close_effect.
    + unfold RLock_defer, RLock. rewrite Hw. simpl.
      run_iteration; close_effect.
  - close_effect.
  - exists fr, []. rewrite app_nil_r. repeat split.
Qed.

(** ** What a run of the loop may do *)

Lemma Start_app `{Collaborators} `{SliceSorter} :
  forall (pre : list Input) (fr fr' : Frame) (rest : list Input),
    existsb is_ctx_Done pre = false ->
    Start fr pre = Ret (inl fr') ->
    Start fr (pre ++ rest) = Start fr' rest.
Proof.
  induction pre as [|i pre IH]; intros fr fr' rest Hdone Hrun.
  - simpl in Hrun. inversion Hrun. reflexivity.
  - simpl in Hdone. apply orb_false_iff in Hdone as [Hi Hdone].
    destruct i; try discriminate Hi; cbn [Start app] in *;
      (destruct (Start_iteration fr _) as [fr1|behind|msg]; simpl in *;
       [now apply IH | discriminate | discriminate]).
Qed.

(** A run over inputs that hold no cancellation, begun with no writer on the
    mutex, goes through all of them. *)
Lemma Start_run_effect `{Collaborators} `{SliceSorter} :
  forall (inputs : list Input) (fr : Frame),
    existsb is_ctx_Done inputs = false ->
    writer (mtx (self fr)) = false ->
    exists fr' evs,
      Start fr inputs = Ret (inl fr') /\
      writer (mtx (self fr')) = false /\
      trace fr' = (trace fr ++ evs)%list /\
      configuration (self fr') = configuration (self fr) /\
      session_active (self fr') = session_active (self fr) /\
      forallb (fun e => existsb (fun i => answers i e) inputs) evs = true.
Proof.
  induction inputs as [|i inputs IH]; intros fr Hdone Hw.
  - exists fr, []. rewrite app_nil_r. repeat split. exact Hw.
  - simpl in Hdone. apply orb_false_iff in Hdone as [Hi Hdone].
    destruct (Start_iteration_effect fr i Hw) as (fr1 & evs1 & Hrun & Htr & Hc & Hs & Ha).
    destruct (Start_iteration_readers fr i Hw) as (fr1' & Hrun' & Hw1 & _).
    rewrite Hrun in Hrun'. inversion Hrun'; subst fr1'.
    destruct (IH fr1 Hdone Hw1) as (fr' & evs & Hrest & Hw' & Htr' & Hc' & Hs' & Ha').
    exists fr', (evs1 ++ evs)%list. split.
    { destruct i; try discriminate Hi; cbn [Start]; rewrite Hrun; exact Hrest. }
    split; [exact Hw'|].
    split; [rewrite Htr', Htr; now rewrite app_assoc|].
    split; [congruence|]. split; [congruence|].
    rewrite forallb_app. apply andb_true_iff. split.
    + rewrite forallb_forall in *. intros e He. simpl. now rewrite (Ha e He).
    + rewrite forallb_forall in *. intros e He. simpl. rewrite (Ha' e He).
      apply orb_true_r.
Qed.



(** [Sync] is its two critical sections around the broadcast and SyncAny. *)
Lemma Sync_by_sections `{Collaborators} :
  forall (r : Reactor) (stateProvider : StateProvider) (discoveryTime : Z),
    Sync r stateProvider discoveryTime =
    (p <- Sync_begin r stateProvider ;;
     match snd p with
     | None => Ret (fst p, (State_zero, None, Some already_in_progress), [])
     | Some s =>
         let '(s', res) := SyncAny s discoveryTime in
         r' <- Sync_end (set_syncer (fst p) (Some s')) ;;
         Ret (r', res,
              [ Log Debug "Requesting snapshots from known peers";
                SwitchBroadcast SnapshotChannel SnapshotsRequest;
                SyncAnyCall discoveryTime ])
     end).
Proof.
  intros [run c q t [n w] sy] sp dt. unfold Sync, Sync_begin, Sync_end. simpl.
  destruct w; simpl; [reflexivity|].
  destruct n; simpl; [|reflexivity].
  destruct sy; simpl; [reflexivity|].
  destruct (SyncAny _ dt) as [s' res]. reflexivity.
Qed.

(** With no call to Sync arriving, the loop beside Sync is the loop. *)
Lemma Start_beside_Sync_alone `{Collaborators} `{SliceSorter} :
  forall (inputs : list Input) (fr : Frame),
    Start_beside_Sync fr (map loop_takes inputs) = Start fr inputs.
Proof.
  induction inputs as [|i inputs IH]; intros fr; [reflexivity|].
  destruct i; cbn [map Start_beside_Sync Start]; try reflexivity;
    (destruct (Start_iteration fr _) as [fr1|behind|msg]; simpl; [apply IH | | ];
     reflexivity).
Qed.

Lemma Start_beside_Sync_app `{Collaborators} `{SliceSorter} :
  forall (pre : list Input) (fr fr' : Frame) (rest : list Step),
    existsb is_ctx_Done pre = false ->
    Start fr pre = Ret (inl fr') ->
    Start_beside_Sync fr (map loop_takes pre ++ rest) = Start_beside_Sync fr' rest.
Proof.
  induction pre as [|i pre IH]; intros fr fr' rest Hdone Hrun.
  - simpl in Hrun. inversion Hrun. reflexivity.
  - simpl in Hdone. apply orb_false_iff in Hdone as [Hi Hdone].
    destruct i; try discriminate Hi; cbn [Start map app Start_beside_Sync] in *;
      (destruct (Start_iteration fr _) as [fr1|behind|msg]; simpl in *;
       [now apply IH | discriminate | discriminate]).
Qed.



(** X2: whatever the loop is given, it only writes log lines and answers:
    every envelope it sends goes out on the channel an input came in on, with
    [To] set to the sender of that input, [From] empty and [Broadcast] off.
    It never reports a peer, never broadcasts through the switch, never uses
    the legacy send, and never starts SyncAny. *)
Theorem Start_only_answers_senders `{Collaborators} `{SliceSorter} :
  forall (r : Reactor) (inputs : list Input),
    existsb is_ctx_Done inputs = false ->
    writer (mtx r) = false ->
    exists fr',
      Start (enter r) inputs = Ret (inl fr') /\
      forall e, In e (trace fr') ->
        (exists i, In i inputs /\ answers i e = true) /\
        match e with
        | Log _ _ | SnapshotChOut _ | ChunkChOut _ => True
        | _ => False
        end.
Proof.
  intros r inputs Hdone Hw.
  destruct (Start_run_effect inputs (enter r) Hdone Hw)
    as (fr' & evs & Hrun & _ & Htr & _ & _ & Ha).
  exists fr'. split; [exact Hrun|]. simpl in Htr. subst evs.
  intros e He. rewrite forallb_forall in Ha. specialize (Ha e He).
  apply existsb_exists in Ha as (i & Hi & Hans).
  split; [exists i; now split|].
  destruct e; simpl in Hans; try exact I; destruct i; discriminate Hans.
Qed.

Lemma Start_only_answers_senders_witness :
  let inputs := [ snapshotCh_In (Demo.envelope_from Demo.peerB SnapshotsRequest);
                  chunkCh_In (Demo.envelope_from Demo.peerA (ChunkRequest 7 2 1)) ] in
  exists fr',
    Start (H0 := insertion_sorter) (@enter Demo.collaborators Demo.idle) inputs
    = Ret (inl fr') /\
    forall e, In e (trace fr') ->
      (exists i, In i inputs /\ answers i e = true) /\
      match e with
      | Log _ _ | SnapshotChOut _ | ChunkChOut _ => True
      | _ => False
      end.
Proof.
  intros inputs.
  exact (@Start_only_answers_senders Demo.collaborators insertion_sorter
           Demo.idle inputs eq_refl eq_refl).
Defined.

(** X3: the loop never creates a session and never ends one, and it never
    writes the configuration: after any run the session slot is filled
    exactly if it was filled before, and IsRunning, conn, connQuery and
    tempDir are as before. *)
Theorem Start_keeps_session_slot `{Collaborators} `{SliceSorter} :
  forall (r : Reactor) (inputs : list Input),
    existsb is_ctx_Done inputs = false ->
    writer (mtx r) = false ->
    exists fr',
      Start (enter r) inputs = Ret (inl fr') /\
      session_active (self fr') = session_active r /\
      configuration (self fr') = configuration r.
Proof.
  intros r inputs Hdone Hw.
  destruct (Start_run_effect inputs (enter r) Hdone Hw)
    as (fr' & evs & Hrun & _ & _ & Hc & Hs & _).
  exists fr'. repeat split; assumption.
Qed.

Lemma Start_keeps_session_slot_witness :
  let inputs := [ snapshotCh_In (Demo.envelope_from Demo.peerA
                                   (SnapshotsResponse 7 2 3 (Some [Byte.xab]) None));
                  peerUpdates_In {| update_ID := Demo.peerA;
                                    update_Status := PeerStatusDown |} ] in
  exists fr',
    Start (H0 := insertion_sorter) (@enter Demo.collaborators Demo.idle) inputs
    = Ret (inl fr') /\
    session_active (self fr') = session_active Demo.idle /\
    configuration (self fr') = configuration Demo.idle.
Proof.
  intros inputs.
  exact (@Start_keeps_session_slot Demo.collaborators insertion_sorter
           Demo.idle inputs eq_refl eq_refl).
Defined.

(** X4: once the loop has handled a SnapshotsResponse or a ChunkResponse and
    has not yet been cancelled, a call to Sync on that reactor, whatever its
    arguments and whether or not a session is active, does not return: it
    waits in Lock for the read lock the loop still holds. *)
Theorem Sync_waits_after_response `{Collaborators} `{SliceSorter} :
  forall (r : Reactor) (inputs : list Input)
         (stateProvider : StateProvider) (discoveryTime : Z),
    existsb is_ctx_Done inputs = false ->
    writer (mtx r) = false ->
    existsb is_response inputs = true ->
    exists fr',
      Start (enter r) inputs = Ret (inl fr') /\
      Sync (self fr') stateProvider discoveryTime
      = Blocks {| readers := readers (mtx (self fr')); writer := true |}.
Proof.
  intros r inputs sp dt Hdone Hw Hresp.
  destruct (Start_keeps_read_locks inputs (enter r) Hdone Hw) as (fr' & Hrun & Hr & _).
  exists fr'. split; [exact Hrun|].
  assert (Hpos : 0 < List.length (filter is_response inputs)).
  { apply existsb_exists in Hresp as (i & Hi & Hri).
    assert (Hin : In i (filter is_response inputs)) by (apply filter_In; now split).
    destruct (filter is_response inputs); [contradiction | simpl; lia]. }
  unfold Sync. rewrite Lock_held; [reflexivity|].
  unfold held. destruct (readers (mtx (self fr'))) eqn:Hn; [simpl in Hr; lia|].
  apply orb_true_r.
Qed.

Lemma Sync_waits_after_response_witness :
  let inputs := [chunkCh_In (Demo.envelope_from Demo.peerA
                               (ChunkResponse 7 2 0 (Some [Byte.x2a]) false))] in
  exists fr',
    Start (H0 := insertion_sorter) (@enter Demo.collaborators Demo.syncing) inputs
    = Ret (inl fr') /\
    Sync (self fr') tt 15
    = Blocks {| readers := readers (mtx (self fr')); writer := true |}.
Proof.
  intros inputs.
  exact (@Sync_waits_after_response Demo.collaborators insertion_sorter
           Demo.syncing inputs tt 15%Z eq_refl eq_refl eq_refl).
Defined.

(** ** The legacy callbacks and the mutex *)

Lemma Receive_effect `{Collaborators} `{SliceSorter} :
  forall (r : Reactor) (chID : N) (src : Peer) (msgBytes : list Byte.byte),
    writer (mtx r) = false ->
    exists r' evs,
      Receive r chID src msgBytes = Ret (r', evs) /\
      mtx r' = mtx r /\
      configuration r' = configuration r /\
      session_active r' = session_active r.
Proof.
  intros [run c q t [n w] sy] chID src msgBytes Hw. simpl in Hw. subst w.
  unfold Receive. simpl IsRunning.
  destruct run; simpl; [|do 2 eexists; repeat split].
  destruct (decodeMsg msgBytes) as [msg|err]; [|do 2 eexists; repeat split].
  destruct (validateMsg msg) as [err|]; [do 2 eexists; repeat split|].
  destruct (chID =? SnapshotChannel)%N;
    [|destruct (chID =? ChunkChannel)%N; [|do 2 eexists; repeat split]].
  - unfold Receive_snapshot, with_RLock.
    destruct msg; simpl; try solve [do 2 eexists; repeat split].
    + run_iteration; do 2 eexists; repeat split.
    + destruct sy; simpl; run_iteration; do 2 eexists; repeat split.
  - unfold Receive_chunk, with_RLock.
    destruct msg; simpl; try solve [do 2 eexists; repeat split].
    + run_iteration; do 2 eexists; repeat split.
    + destruct sy; simpl; run_iteration; do 2 eexists; repeat split.
Qed.

(** X5: the legacy Receive, called while no writer holds or awaits the mutex, always
    returns, whatever the channel, the peer and the bytes; the mutex is then
    exactly as before (every read lock it took is given back), the
    configuration is untouched, and the session slot is filled exactly if it
    was filled before. *)
Theorem Receive_gives_back_the_mutex `{Collaborators} `{SliceSorter} :
  forall (r : Reactor) (chID : N) (src : Peer) (msgBytes : list Byte.byte),
    writer (mtx r) = false ->
    exists r' evs,
      Receive r chID src msgBytes = Ret (r', evs) /\
      mtx r' = mtx r /\
      configuration r' = configuration r /\
      session_active r' = session_active r.
Proof. exact Receive_effect. Qed.

Lemma Receive_gives_back_the_mutex_witness :
  exists r' evs,
    Receive (H0 := insertion_sorter) Demo.syncing ChunkChannel Demo.peerA
      [Byte.x04; Byte.x07; Byte.x02; Byte.x00] = Ret (r', evs) /\
    mtx r' = mtx Demo.syncing /\
    configuration r' = configuration Demo.syncing /\
    session_active r' = session_active Demo.syncing.
Proof.
  exact (@Receive_gives_back_the_mutex Demo.collaborators insertion_sorter
           Demo.syncing ChunkChannel Demo.peerA
           [Byte.x04; Byte.x07; Byte.x02; Byte.x00] eq_refl).
Defined.

(** X6: AddPeer and RemovePeer, called while no writer holds or awaits the mutex,
    return with the mutex and the configuration as before; with a session
    active the session gets exactly the one call, with none nothing changes.
    While a writer holds or awaits the mutex both wait. *)
Theorem AddPeer_RemovePeer_forward `{Collaborators} :
  forall (r : Reactor) (peer : Peer),
    (writer (mtx r) = false ->
     exists r1 r2,
       AddPeer r peer = Ret (r1, tt) /\
       RemovePeer r peer = Ret (r2, tt) /\
       syncer r1 = option_map (fun s => syncer_AddPeer s peer) (syncer r) /\
       syncer r2 = option_map (fun s => syncer_RemovePeer s peer) (syncer r) /\
       mtx r1 = mtx r /\ mtx r2 = mtx r /\
       configuration r1 = configuration r /\ configuration r2 = configuration r) /\
    (writer (mtx r) = true ->
     AddPeer r peer = Blocks (mtx r) /\ RemovePeer r peer = Blocks (mtx r)).
Proof.
  intros [run c q t [n w] sy] peer. simpl. split; intros Hw; subst w.
  - destruct sy; do 2 eexists; repeat split.
  - split; reflexivity.
Qed.

Lemma AddPeer_RemovePeer_forward_witness :
  exists r1 r2,
    AddPeer Demo.syncing Demo.peerA = Ret (r1, tt) /\
    RemovePeer Demo.syncing Demo.peerA = Ret (r2, tt) /\
    syncer r1 = Some [Demo.call_AddPeer Demo.peerA] /\
    syncer r2 = Some [Demo.call_RemovePeer Demo.peerA] /\
    mtx r1 = mtx Demo.syncing /\ mtx r2 = mtx Demo.syncing /\
    configuration r1 = configuration Demo.syncing /\
    configuration r2 = configuration Demo.syncing.
Proof.
  exact (proj1 (@AddPeer_RemovePeer_forward Demo.collaborators Demo.syncing Demo.peerA)
           eq_refl).
Defined.

(** X7: only responses touch the mutex.  An input that is not a response (a
    request, a message the channel does not know, a peer update) is handled
    whatever the state of the mutex, even while a writer holds or awaits it, and leaves
    the reactor and the deferred calls as they are; a response waits while a
    writer holds or awaits the mutex. *)
Theorem Start_locks_only_for_responses `{Collaborators} `{SliceSorter} :
  forall (fr : Frame) (i : Input),
    (is_response i = false ->
     exists evs, Start_iteration fr i = Ret (emit fr evs)) /\
    (is_response i = true ->
     writer (mtx (self fr)) = true ->
     Start_iteration fr i = Blocks (mtx (self fr))).
Proof.
  intros fr i. split.
  - intros Hresp. destruct i as [e|e|u|]; simpl in *.
    + unfold Start_snapshotCh. destruct (Msg e); try discriminate Hresp;
        try (eexists; reflexivity).
      run_iteration; eexists; reflexivity.
    + unfold Start_chunkCh. destruct (Msg e); try discriminate Hresp; simpl;
        try (eexists; reflexivity);
        run_iteration; unfold emit; simpl; rewrite <- app_assoc; eexists; reflexivity.
    + eexists; reflexivity.
    + exists []. unfold emit. rewrite app_nil_r. now destruct fr.
  - intros Hresp Hw. destruct i as [e|e|u|]; simpl in *; try discriminate Hresp.
    + unfold Start_snapshotCh. destruct (Msg e); try discriminate Hresp.
      unfold RLock_defer, RLock. now rewrite Hw.
    + unfold Start_chunkCh. destruct (Msg e); try discriminate Hresp.
      unfold RLock_defer, RLock. now rewrite Hw.
Qed.

Lemma Start_locks_only_for_responses_witness :
  let busy := @set_mtx Demo.collaborators Demo.syncing
                {| readers := 0; writer := true |} in
  (exists evs,
      Start_iteration (H0 := insertion_sorter) (enter busy)
        (chunkCh_In (Demo.envelope_from Demo.peerB (ChunkRequest 7 2 0)))
      = Ret (emit (enter busy) evs)) /\
  Start_iteration (H0 := insertion_sorter) (enter busy)
    (chunkCh_In (Demo.envelope_from Demo.peerA (ChunkResponse 7 2 0 None true)))
  = Blocks {| readers := 0; writer := true |}.
Proof.
  intros busy. split.
  - exact (proj1 (@Start_locks_only_for_responses Demo.collaborators insertion_sorter
                    (enter busy)
                    (chunkCh_In (Demo.envelope_from Demo.peerB (ChunkRequest 7 2 0))))
             eq_refl).
  - exact (proj2 (@Start_locks_only_for_responses Demo.collaborators insertion_sorter
                    (enter busy)
                    (chunkCh_In (Demo.envelope_from Demo.peerA
                                   (ChunkResponse 7 2 0 None true))))
             eq_refl eq_refl).
Defined.

(** ** When the application cannot list its snapshots *)

(** X8: if the application fails to list its snapshots, [recentSnapshots]
    returns that very error, and a SnapshotsRequest gets no answer on either
    path: the loop and the legacy callback log the failure, send nothing,
    report no peer and leave the reactor as it is. *)
Theorem SnapshotsRequest_list_error_no_response `{Collaborators} `{SliceSorter} :
  forall (r : Reactor) (n : N) (from : PeerID) (msgBytes : list Byte.byte) (err : error),
    ListSnapshotsSync (conn r) = Err err ->
    Reactor_recentSnapshots r n = Err err /\
    Start_iteration (enter r)
      (snapshotCh_In {| From := from; To := []; Broadcast := false;
                        Msg := SnapshotsRequest |})
    = Ret (emit (enter r) [Log Error "failed to fetch snapshots"]) /\
    (IsRunning r = true ->
     decodeMsg msgBytes = OK SnapshotsRequest ->
     validateMsg SnapshotsRequest = None ->
     Receive r SnapshotChannel from msgBytes
     = Ret (r, [Log Error "Failed to fetch snapshots"])).
Proof.
  intros r n from msgBytes err Hl.
  assert (Hrs : forall k, Reactor_recentSnapshots r k = Err err).
  { intros k. unfold Reactor_recentSnapshots. now rewrite Hl. }
  split; [apply Hrs|]. split.
  - simpl. unfold Start_snapshotCh. simpl. now rewrite Hrs.
  - intros Hrun Hdec Hval. unfold Receive. rewrite Hrun, Hdec, Hval. simpl.
    now rewrite Hrs.
Qed.

Lemma SnapshotsRequest_list_error_no_response_witness :
  let r := @Build_Reactor Demo.collaborators true
             {| ListSnapshotsSync := Err "app is down";
                LoadSnapshotChunkSync := fun _ => Err "app is down" |}
             tt "" unlocked None in
  Reactor_recentSnapshots (H0 := insertion_sorter) r 10 = Err "app is down" /\
  Start_iteration (H0 := insertion_sorter) (enter r)
    (snapshotCh_In {| From := Demo.peerA; To := []; Broadcast := false;
                      Msg := SnapshotsRequest |})
  = Ret (emit (enter r) [Log Error "failed to fetch snapshots"]) /\
  Receive (H0 := insertion_sorter) r SnapshotChannel Demo.peerA [Byte.x01]
  = Ret (r, [Log Error "Failed to fetch snapshots"]).
Proof.
  intros r.
  destruct (@SnapshotsRequest_list_error_no_response Demo.collaborators insertion_sorter
              r 10%N Demo.peerA [Byte.x01] "app is down" eq_refl) as (H1 & H2 & H3).
  split; [exact H1|]. split; [exact H2|]. exact (H3 eq_refl eq_refl eq_refl).
Defined.

(** ** Which snapshots are kept *)

Lemma StronglySorted_app_cross {A} (R : A -> A -> Prop) l1 l2 :
  StronglySorted R (l1 ++ l2) ->
  forall a b, In a l1 -> In b l2 -> R a b.
Proof.
  induction l1 as [|x l1 IH]; intros Hs a b Ha Hb; [contradiction|].
  simpl in Hs. inversion Hs as [|? ? Hs' Hall]; subst.
  destruct Ha as [->|Ha].
  - rewrite Forall_forall in Hall. apply Hall, in_or_app. now right.
  - now apply IH.
Qed.

(** X9: the snapshots [recentSnapshots] returns are the best ones.  What the
    application listed splits into the snapshots returned and the snapshots
    dropped; every returned snapshot comes no later in descending (Height,
    Format) order than every dropped one; and something is dropped only when
    10 snapshots are returned. *)
Theorem recentSnapshots_keeps_the_best `{Collaborators} `{SliceSorter} :
  forall (r : Reactor) (n : N) (l : list abci_Snapshot),
    ListSnapshotsSync (conn r) = OK l ->
    exists kept dropped,
      Reactor_recentSnapshots r n = OK kept /\
      Permutation (kept ++ dropped) (map to_snapshot l) /\
      (forall k d, In k kept -> In d dropped -> snapshot_ge k d) /\
      (dropped <> [] -> List.length kept = 10).
Proof.
  intros r n l Hl.
  set (sorted := sort_Slice snapshot_less l).
  exists (map to_snapshot (firstn recentSnapshots sorted)),
         (map to_snapshot (skipn recentSnapshots sorted)).
  split; [now apply recentSnapshots_eq|].
  rewrite <- map_app, firstn_skipn.
  split; [apply Permutation_map, sort_Slice_perm|].
  split.
  - apply StronglySorted_app_cross.
    rewrite <- map_app, firstn_skipn. apply Sorted_descending.
    apply sort_Slice_sorted, snapshot_less_strict_weak.
  - intros Hd. rewrite length_map, length_firstn.
    destruct (Nat.le_gt_cases recentSnapshots (List.length sorted)) as [Hle|Hgt].
    + unfold recentSnapshots in *. lia.
    + exfalso. apply Hd. rewrite skipn_all2; [reflexivity | lia].
Qed.

Lemma recentSnapshots_keeps_the_best_witness :
  exists kept dropped,
    @Reactor_recentSnapshots Demo.collaborators insertion_sorter Demo.idle 1 = OK kept /\
    Permutation (kept ++ dropped)
      (map to_snapshot [Demo.snap 5 1; Demo.snap 7 1; Demo.snap 7 2]) /\
    (forall k d, In k kept -> In d dropped -> snapshot_ge k d) /\
    (dropped <> [] -> List.length kept = 10).
Proof.
  exact (@recentSnapshots_keeps_the_best Demo.collaborators insertion_sorter
           Demo.idle 1%N _ eq_refl).
Defined.

(** X10: the comparison handed to sort.Slice puts [a] before [b] exactly when
    [a] has the greater Height, or the same Height and the greater Format.
    Two snapshots are tied exactly when they agree on Height and Format:
    Chunks, Hash and Metadata play no part, so the order of two snapshots
    that differ only there is left to the sort. *)
Theorem snapshot_less_by_height_then_format :
  forall a b : abci_Snapshot,
    (snapshot_less a b = true <->
     (abci_Height b < abci_Height a)%N \/
     (abci_Height a = abci_Height b /\ (abci_Format b < abci_Format a)%N)) /\
    (tied a b = true <->
     abci_Height a = abci_Height b /\ abci_Format a = abci_Format b).
Proof.
  intros a b. unfold tied, snapshot_less.
  destruct (N.ltb_spec (abci_Height b) (abci_Height a));
  destruct (N.ltb_spec (abci_Height a) (abci_Height b));
  destruct (N.eqb_spec (abci_Height a) (abci_Height b));
  destruct (N.eqb_spec (abci_Height b) (abci_Height a));
  destruct (N.ltb_spec (abci_Format b) (abci_Format a));
  destruct (N.ltb_spec (abci_Format a) (abci_Format b));
  simpl; (split; split; intros Hx; try discriminate Hx; try reflexivity;
          try lia; try (destruct Hx; lia)).
Qed.

(** ** The two stacks side by side *)


Lemma ChunkChannel_not_SnapshotChannel : (ChunkChannel =? SnapshotChannel)%N = false.
Proof. reflexivity. Qed.



(** X12: the reactor itself never reads the Missing flag of a ChunkResponse.
    In the dispatch loop an iteration does the same whatever the flag says.
    In the legacy Receive, two messages that differ only in the flag and both
    pass validateMsg are treated alike.  And with the reactor running, a
    session active and no writer holding or awaiting the mutex, such a message, marked
    missing or not, is passed to AddChunk on both paths, as a chunk with the
    payload and the sender of the message. *)
Theorem ChunkResponse_Missing_is_ignored `{Collaborators} `{SliceSorter} :
  forall (fr : Frame) (r : Reactor) (from : PeerID) (h f i : N) (payload : bytes)
         (missing missing' : bool) (msgBytes msgBytes' : list Byte.byte),
    let m := ChunkResponse h f i payload missing in
    let m' := ChunkResponse h f i payload missing' in
    let envelope msg := {| From := from; To := []; Broadcast := false; Msg := msg |} in
    let c := {| chunk_Height := h; chunk_Format := f; chunk_Index := i;
                chunk_Chunk := payload; chunk_Sender := from |} in
    Start_iteration fr (chunkCh_In (envelope m))
    = Start_iteration fr (chunkCh_In (envelope m')) /\
    (decodeMsg msgBytes = OK m -> validateMsg m = None ->
     decodeMsg msgBytes' = OK m' -> validateMsg m' = None ->
     Receive r ChunkChannel from msgBytes = Receive r ChunkChannel from msgBytes') /\
    (forall s,
       IsRunning r = true -> syncer r = Some s -> writer (mtx r) = false ->
       decodeMsg msgBytes = OK m -> validateMsg m = None ->
       exists r' evs fr',
         Receive r ChunkChannel from msgBytes = Ret (r', evs) /\
         Start_iteration (enter r) (chunkCh_In (envelope m)) = Ret fr' /\
         syncer r' = Some (fst (AddChunk s c)) /\
         syncer (self fr') = Some (fst (AddChunk s c))).
Proof.
  intros fr r from h f i payload missing missing' msgBytes msgBytes' m m' envelope c.
  split; [reflexivity|]. split.
  - intros Hd Hv Hd' Hv'. unfold Receive. rewrite Hd, Hv, Hd', Hv'. reflexivity.
  - intros s Hrun Hs Hw Hd Hv.
    destruct r as [run cn q t [n w] sy]. simpl in Hrun, Hs, Hw. subst run sy w.
    unfold Receive. simpl IsRunning. cbn [negb]. rewrite Hd, Hv.
    rewrite ChunkChannel_not_SnapshotChannel, N.eqb_refl.
    subst m. unfold Receive_chunk, with_RLock. simpl. unfold Start_chunkCh. simpl.
    subst c. destruct (AddChunk _ _) as [s' [b [e|]]]; do 3 eexists; repeat split.
Qed.

Lemma ChunkResponse_Missing_is_ignored_witness :
  let marked := [Byte.x04; Byte.x07; Byte.x02; Byte.x02] in
  let plain := [Byte.x05; Byte.x07; Byte.x02; Byte.x02] in
  let c := {| chunk_Height := 7; chunk_Format := 2; chunk_Index := 2;
              chunk_Chunk := None; chunk_Sender := Demo.peerA |} in
  @decodeMsg Demo.collaborators marked = OK (ChunkResponse 7 2 2 None true) /\
  @decodeMsg Demo.collaborators plain = OK (ChunkResponse 7 2 2 None false) /\
  Receive (H0 := insertion_sorter) Demo.syncing ChunkChannel Demo.peerA marked
  = Receive (H0 := insertion_sorter) Demo.syncing ChunkChannel Demo.peerA plain /\
  exists r' evs fr',
    Receive (H0 := insertion_sorter) Demo.syncing ChunkChannel Demo.peerA marked
    = Ret (r', evs) /\
    Start_iteration (H0 := insertion_sorter) (enter Demo.syncing)
      (chunkCh_In (Demo.envelope_from Demo.peerA (ChunkResponse 7 2 2 None true)))
    = Ret fr' /\
    syncer r' = Some [Demo.call_AddChunk c] /\
    syncer (self fr') = Some [Demo.call_AddChunk c].
Proof.
  intros marked plain c.
  destruct (@ChunkResponse_Missing_is_ignored Demo.collaborators insertion_sorter
              (enter Demo.syncing) Demo.syncing Demo.peerA 7%N 2%N 2%N None true false
              marked plain) as (_ & Hsame & Hfed).
  split; [reflexivity|]. split; [reflexivity|].
  split; [exact (Hsame eq_refl eq_refl eq_refl eq_refl)|].
  exact (Hfed [] eq_refl eq_refl eq_refl eq_refl eq_refl).
Defined.

(** ** Receive: what is refused *)

(** X13: a running reactor that cannot decode the bytes, or whose validation
    rejects the decoded message, reports the sending peer to the switch once,
    with that error, and does nothing more: nothing is sent, the mutex is not
    touched (the call returns even while a writer holds or awaits it) and the reactor
    is as before. *)
Theorem Receive_bad_message_stops_peer `{Collaborators} `{SliceSorter} :
  forall (r : Reactor) (chID : N) (src : Peer) (msgBytes : list Byte.byte) (err : error),
    IsRunning r = true ->
    decodeMsg msgBytes = Err err \/
    (exists msg, decodeMsg msgBytes = OK msg /\ validateMsg msg = Some err) ->
    exists line,
      Receive r chID src msgBytes = Ret (r, [Log Error line; StopPeerForError src err]).
Proof.
  intros r chID src msgBytes err Hrun [Hdec|(msg & Hdec & Hval)];
    unfold Receive; rewrite Hrun, Hdec; simpl.
  - eexists; reflexivity.
  - rewrite Hval. eexists; reflexivity.
Qed.

Lemma Receive_bad_message_stops_peer_witness :
  exists line,
    Receive (H0 := insertion_sorter)
      (@set_mtx Demo.collaborators Demo.syncing {| readers := 0; writer := true |})
      SnapshotChannel Demo.peerA [Byte.xff]
    = Ret (@set_mtx Demo.collaborators Demo.syncing {| readers := 0; writer := true |},
           [Log Error line; StopPeerForError Demo.peerA "unknown message type"]).
Proof.
  exact (@Receive_bad_message_stops_peer Demo.collaborators insertion_sorter
           (@set_mtx Demo.collaborators Demo.syncing {| readers := 0; writer := true |})
           SnapshotChannel Demo.peerA [Byte.xff] "unknown message type"
           eq_refl (or_introl eq_refl)).
Defined.

(** X14: the reactor declares two channels with distinct IDs, the snapshot
    channel with the higher priority.  A valid message that reaches a running
    reactor on any other channel is logged as being on an invalid channel and
    dropped: the sender is not reported, nothing is sent, the reactor is as
    before. *)
Theorem Receive_undeclared_channel `{Collaborators} `{SliceSorter} :
  forall (snapshotMsgSize chunkMsgSize : Z)
         (r : Reactor) (chID : N) (src : Peer) (msgBytes : list Byte.byte)
         (msg : Message),
    let channels := GetChannels snapshotMsgSize chunkMsgSize in
    NoDup (map ID channels) /\
    map Priority channels = [3; 1]%Z /\
    (IsRunning r = true ->
     decodeMsg msgBytes = OK msg ->
     validateMsg msg = None ->
     ~ In chID (map ID channels) ->
     Receive r chID src msgBytes
     = Ret (r, [Log Error "Received message on invalid channel %x"])).
Proof.
  intros a b r chID src msgBytes msg channels. split; [|split].
  - simpl. repeat constructor; simpl; [|tauto].
    intros [Heq|[]]. discriminate Heq.
  - reflexivity.
  - intros Hrun Hdec Hval Hnot. unfold Receive. rewrite Hrun, Hdec, Hval. simpl.
    simpl in Hnot.
    destruct (N.eqb_spec chID SnapshotChannel) as [->|_]; [tauto|].
    destruct (N.eqb_spec chID ChunkChannel) as [->|_]; [tauto|].
    reflexivity.
Qed.

Lemma Receive_undeclared_channel_witness :
  Receive (H0 := insertion_sorter) Demo.idle 0x20 Demo.peerA [Byte.x01]
  = Ret (Demo.idle, [Log Error "Received message on invalid channel %x"]).
Proof.
  apply (proj2 (proj2 (@Receive_undeclared_channel Demo.collaborators insertion_sorter
                         4000000%Z 16000000%Z Demo.idle 0x20%N Demo.peerA [Byte.x01]
                         SnapshotsRequest))); try reflexivity.
  simpl. intros [Heq|[Heq|[]]]; discriminate Heq.
Defined.

(** ** What reaches the session *)

Lemma Start_iteration_feeds `{Collaborators} `{SliceSorter} :
  forall (fr : Frame) (i : Input) (s : Syncer),
    syncer (self fr) = Some s ->
    writer (mtx (self fr)) = false ->
    exists fr',
      Start_iteration fr i = Ret fr' /\
      writer (mtx (self fr')) = false /\
      syncer (self fr') = Some (feed s i).
Proof.
  intros fr [e|e|u|] s Hs Hw; simpl.
  - unfold Start_snapshotCh. destruct (Msg e); simpl;
      try solve [eexists; split; [reflexivity|]; split; assumption].
    + run_iteration; eexists; (split; [reflexivity|]); split; assumption.
    + unfold RLock_defer, RLock. rewrite Hw. simpl. rewrite Hs. simpl.
      destruct (AddSnapshot _ _ _) as [s' [b [err|]]]; simpl;
        eexists; (split; [reflexivity|]); split; reflexivity.
  - unfold Start_chunkCh. destruct (Msg e); simpl;
      try solve [eexists; split; [reflexivity|]; split; assumption].
    + run_iteration; eexists; (split; [reflexivity|]); split; assumption.
    + unfold RLock_defer, RLock. rewrite Hw. simpl. rewrite Hs. simpl.
      destruct (AddChunk _ _) as [s' [b [err|]]]; simpl;
        eexists; (split; [reflexivity|]); split; reflexivity.
  - eexists; split; [reflexivity|]; split; assumption.
  - eexists; split; [reflexivity|]; split; assumption.
Qed.

Lemma Start_run_feeds `{Collaborators} `{SliceSorter} :
  forall (inputs : list Input) (fr : Frame) (s : Syncer),
    existsb is_ctx_Done inputs = false ->
    syncer (self fr) = Some s ->
    writer (mtx (self fr)) = false ->
    exists fr',
      Start fr inputs = Ret (inl fr') /\
      syncer (self fr') = Some (fold_left feed inputs s).
Proof.
  induction inputs as [|i inputs IH]; intros fr s Hdone Hs Hw.
  - exists fr. split; [reflexivity | exact Hs].
  - simpl in Hdone. apply orb_false_iff in Hdone as [Hi Hdone].
    destruct (Start_iteration_feeds fr i s Hs Hw) as (fr1 & Hrun & Hw1 & Hs1).
    destruct (IH fr1 (feed s i) Hdone Hs1 Hw1) as (fr' & Hrest & Hs').
    exists fr'. split; [|exact Hs'].
    destruct i; try discriminate Hi; cbn [Start]; rewrite Hrun; exact Hrest.
Qed.

(** X15: suppose that a session is active, that no writer holds or waits
    for the mutex, and that no call to Sync enters or leaves its critical
    sections during the run.  Then the loop hands the session every
    SnapshotsResponse and every ChunkResponse it takes, once each and in the
    order taken, each with the peer it came from, whether or not an earlier
    call returned an error; requests, unknown messages and peer updates hand
    it nothing. *)
Theorem Start_feeds_session_in_order `{Collaborators} `{SliceSorter} :
  forall (inputs : list Input) (fr : Frame) (s : Syncer),
    existsb is_ctx_Done inputs = false ->
    syncer (self fr) = Some s ->
    writer (mtx (self fr)) = false ->
    exists fr',
      Start_beside_Sync fr (map loop_takes inputs) = Ret (inl fr') /\
      syncer (self fr') = Some (fold_left feed inputs s).
Proof.
  intros inputs fr s. rewrite Start_beside_Sync_alone. apply Start_run_feeds.
Qed.

Lemma Start_feeds_session_in_order_witness :
  let inputs :=
    [ chunkCh_In (Demo.envelope_from Demo.peerA (ChunkResponse 7 2 1 (Some [Byte.x2a]) false));
      snapshotCh_In (Demo.envelope_from Demo.peerB SnapshotsRequest);
      snapshotCh_In (Demo.envelope_from Demo.peerB (SnapshotsResponse 9 1 2 None None)) ] in
  exists fr',
    Start_beside_Sync (H0 := insertion_sorter) (@enter Demo.collaborators Demo.syncing)
      (map loop_takes inputs) = Ret (inl fr') /\
    syncer (self fr')
    = Some [ Demo.call_AddChunk
               {| chunk_Height := 7; chunk_Format := 2; chunk_Index := 1;
                  chunk_Chunk := Some [Byte.x2a]; chunk_Sender := Demo.peerA |};
             Demo.call_AddSnapshot Demo.peerB
               {| Height := 9; Format := 1; Chunks := 2; Hash := None; Metadata := None |} ].
Proof.
  intros inputs.
  exact (@Start_feeds_session_in_order Demo.collaborators insertion_sorter
           inputs (enter Demo.syncing) [] eq_refl eq_refl eq_refl).
Defined.

(** ** A reactor fresh from its constructor *)

(** X16: NewReactorDeprecated stores the two connections and drops the
    temporary directory it is given.  The reactor it returns has no session
    and a free mutex, and is not running, so Receive ignores whatever comes
    in; and the session Sync creates on it is built with the empty string
    for a directory, whatever was passed to the constructor. *)
Theorem NewReactorDeprecated_drops_tempDir `{Collaborators} `{SliceSorter} :
  forall (conn : AppConnSnapshot) (connQuery : AppConnQuery) (tempDir : string)
         (chID : N) (src : Peer) (msgBytes : list Byte.byte)
         (stateProvider : StateProvider) (discoveryTime : Z),
    let r := NewReactorDeprecated conn connQuery tempDir in
    Receive r chID src msgBytes = Ret (r, []) /\
    Sync r stateProvider discoveryTime
    = Ret (r, snd (SyncAny (newSyncer conn connQuery stateProvider "") discoveryTime),
           [ Log Debug "Requesting snapshots from known peers";
             SwitchBroadcast SnapshotChannel SnapshotsRequest;
             SyncAnyCall discoveryTime ]).
Proof.
  intros c q t chID src msgBytes sp dt r. split; [reflexivity|].
  unfold Sync; simpl. destruct (SyncAny _ dt) as [s' res]. reflexivity.
Qed.

(** ** The echo reactor *)

(** X17: Wrap and Unwrap of the echo wrapper are inverse to each other.  A
    message that Wrap accepts is what Unwrap gives back, and wrapping what
    Unwrap gave, into any wrapper at all, gives the wrapper it came from. *)
Theorem Echo_Wrap_Unwrap_roundtrip :
  forall (m m' : Echo.EchoMessage) (inner : Echo.proto_Message),
    (Echo.Wrap m inner = (m', None) -> Echo.Unwrap m' = OK inner) /\
    (Echo.Unwrap m' = OK inner -> Echo.Wrap m inner = (m', None)).
Proof.
  intros m m' inner. split.
  - destruct inner; simpl; intros Hw; inversion Hw; reflexivity.
  - destruct m' as [[[p|p]|]]; unfold Echo.Unwrap; simpl; intros Hu;
      inversion Hu; reflexivity.
Qed.

Lemma Echo_Wrap_Unwrap_roundtrip_witness :
  let ping := Echo.Ping {| Echo.Ping_Content := "hello" |} in
  let wrapped := {| Echo.Inner := Some (Echo.EchoMessage_PingMessage
                                          {| Echo.Ping_Content := "hello" |}) |} in
  Echo.Unwrap wrapped = OK ping /\
  Echo.Wrap {| Echo.Inner := None |} ping = (wrapped, None).
Proof.
  intros ping wrapped.
  destruct (Echo_Wrap_Unwrap_roundtrip {| Echo.Inner := None |} wrapped ping) as [H1 H2].
  split; [exact (H1 eq_refl) | exact (H2 eq_refl)].
Defined.

(** X18: Wrap refuses exactly the messages that are neither a ping nor a
    pong, and then leaves the wrapper as it was; when it accepts, what the
    wrapper held before is overwritten.  Unwrap fails exactly on a wrapper
    whose inner field is not set. *)
Theorem Echo_Wrap_Unwrap_failures :
  forall (m m0 : Echo.EchoMessage) (inner : Echo.proto_Message),
    (snd (Echo.Wrap m inner) <> None <-> exists type_name, inner = Echo.Other type_name) /\
    (snd (Echo.Wrap m inner) <> None -> fst (Echo.Wrap m inner) = m) /\
    (snd (Echo.Wrap m inner) = None -> Echo.Wrap m0 inner = Echo.Wrap m inner) /\
    ((exists e, Echo.Unwrap m = Err e) <-> Echo.Inner m = None).
Proof.
  intros m m0 inner. repeat split.
  - destruct inner; simpl; intros Hn; try congruence. eexists; reflexivity.
  - intros [t ->]. simpl. discriminate.
  - destruct inner; simpl; congruence.
  - destruct inner; simpl; congruence.
  - intros [e He]. destruct m as [[[p|p]|]]; unfold Echo.Unwrap in He; simpl in *;
      congruence.
  - intros Hn. unfold Echo.Unwrap. rewrite Hn. eexists; reflexivity.
Qed.

Lemma Echo_Wrap_Unwrap_failures_witness :
  let m := {| Echo.Inner := Some (Echo.EchoMessage_PongMessage
                                    {| Echo.Pong_Content := "kept" |}) |} in
  fst (Echo.Wrap m (Echo.Other "*SnapshotsRequest")) = m /\
  Echo.Wrap {| Echo.Inner := None |} (Echo.Ping {| Echo.Ping_Content := "new" |})
  = Echo.Wrap m (Echo.Ping {| Echo.Ping_Content := "new" |}).
Proof.
  intros m. split.
  - apply (proj1 (proj2 (Echo_Wrap_Unwrap_failures m m (Echo.Other "*SnapshotsRequest")))).
    simpl. discriminate.
  - apply (proj1 (proj2 (proj2 (Echo_Wrap_Unwrap_failures m {| Echo.Inner := None |}
                                  (Echo.Ping {| Echo.Ping_Content := "new" |}))))).
    reflexivity.
Defined.






(** ** The loop behind a waiting Sync *)

Lemma Start_iteration_waits `{Collaborators} `{SliceSorter} :
  forall (fr : Frame) (i : Input),
    is_response i = true ->
    writer (mtx (self fr)) = true ->
    Start_iteration fr i = Blocks (mtx (self fr)).
Proof.
  intros fr [e|e|u|] Hresp Hw; simpl in *; try discriminate Hresp.
  - unfold Start_snapshotCh. destruct (Msg e); try discriminate Hresp.
    unfold RLock_defer, RLock. now rewrite Hw.
  - unfold Start_chunkCh. destruct (Msg e); try discriminate Hresp.
    unfold RLock_defer, RLock. now rewrite Hw.
Qed.

Lemma Sync_step_announces `{Collaborators} `{SliceSorter} :
  forall (fr : Frame) (step : Step),
    is_Sync_step step = true ->
    writer (mtx (self fr)) = false ->
    0 < readers (mtx (self fr)) ->
    forall steps,
      Start_beside_Sync fr (step :: steps)
      = Start_beside_Sync
          (with_self fr (set_mtx (self fr)
                           {| readers := readers (mtx (self fr)); writer := true |}))
          steps.
Proof.
  intros fr step Hstep Hw Hr steps.
  destruct fr as [[run c q t [n w] sy] ds tr]. simpl in Hw, Hr. subst w.
  destruct n as [|n]; [lia|].
  destruct step as [i|sp|]; try discriminate Hstep; reflexivity.
Qed.

(** X20: once the dispatch loop has handled a SnapshotsResponse or a
    ChunkResponse, a call to Sync that arrives (at its first critical section
    or, coming back from SyncAny, at its second) waits for the read lock the
    loop still holds, and the next response the loop takes then waits behind
    that writer.  The loop stalls there for good: nothing that follows is
    handled, a cancellation included. *)
Theorem Start_stalls_behind_waiting_Sync `{Collaborators} `{SliceSorter} :
  forall (r : Reactor) (pre : list Input) (step : Step) (i : Input) (rest : list Step),
    existsb is_ctx_Done pre = false ->
    writer (mtx r) = false ->
    existsb is_response pre = true ->
    is_Sync_step step = true ->
    is_response i = true ->
    exists behind,
      Start_beside_Sync (enter r) (map loop_takes pre ++ step :: loop_takes i :: rest)
      = Blocks behind /\
      writer behind = true /\
      0 < readers behind.
Proof.
  intros r pre step i rest Hdone Hw Hresp Hstep Hi.
  destruct (Start_run_effect pre (enter r) Hdone Hw) as (fr' & evs & Hrun & Hw' & _).
  destruct (Start_keeps_read_locks pre (enter r) Hdone Hw) as (fr2 & Hrun2 & Hr & _).
  rewrite Hrun in Hrun2. inversion Hrun2; subst fr2. clear Hrun2.
  assert (Hpos : 0 < readers (mtx (self fr'))).
  { apply existsb_exists in Hresp as (j & Hj & Hrj).
    assert (Hin : In j (filter is_response pre)) by (apply filter_In; now split).
    destruct (filter is_response pre); [contradiction | simpl in Hr; lia]. }
  exists {| readers := readers (mtx (self fr')); writer := true |}.
  split; [|split; [reflexivity | exact Hpos]].
  rewrite (Start_beside_Sync_app pre (enter r) fr' _ Hdone Hrun).
  rewrite (Sync_step_announces fr' step Hstep Hw' Hpos).
  destruct i; try discriminate Hi; cbn [Start_beside_Sync];
    rewrite Start_iteration_waits by (assumption || reflexivity); reflexivity.
Qed.

Lemma Start_stalls_behind_waiting_Sync_witness :
  let response := chunkCh_In (Demo.envelope_from Demo.peerA
                                (ChunkResponse 7 2 0 (Some [Byte.x2a]) false)) in
  exists behind,
    Start_beside_Sync (H0 := insertion_sorter) (@enter Demo.collaborators Demo.syncing)
      (map loop_takes [response]
       ++ Sync_leaves :: loop_takes response :: [loop_takes ctx_Done])
    = Blocks behind /\
    writer behind = true /\
    0 < readers behind.
Proof.
  intros response.
  exact (@Start_stalls_behind_waiting_Sync Demo.collaborators insertion_sorter
           Demo.syncing [response] Sync_leaves response [loop_takes ctx_Done]
           eq_refl eq_refl eq_refl eq_refl eq_refl).
Defined.

(** ** Sync getting through *)



